(** * Location tracking server: ingestion, queries and live broadcast

    A shallow embedding of [API/server.js] and of the schema created by
    [db.js] ([ensureSchema]), followed by the properties of the
    ingestion pipeline, the two read endpoints and the WebSocket
    broadcast helper.

    The model starts where a route handler starts: the middleware in
    front of the routes (helmet, CORS, the rate limiter, the JSON body
    parser) has run and has let the request through. *)

From Stdlib Require Import ZArith QArith Qround List String Ascii Bool Lia.
From Stdlib Require Import Permutation Sorted.
From stdpp Require Import gmap strings list.
Import ListNotations.

Local Open Scope string_scope.
Local Open Scope list_scope.
Local Open Scope Z_scope.

(** ** JavaScript numbers and [Number(...)]

    A JavaScript number is [NaN], an infinity or a finite double.  A
    finite double is kept as the rational it stands for; [Number] of a
    string rounds the value written to the nearest double, to zero
    when it is too small and to an infinity when it is too large.
    Strings are sequences of bytes, the UTF-8 form of the JavaScript
    string. *)

Module JS.

Inductive num : Type :=
  | NaN
  | PosInf
  | NegInf
  | Fin (q : Q).

Inductive value : Type :=
  | Undefined
  | Str (s : string)
  | Num (n : num).

Definition is_zero (q : Q) : bool := (Qnum q =? 0)%Z.

(** [ToBoolean]: [undefined], the empty string, [NaN] and zero are falsy. *)
Definition truthy (v : value) : bool :=
  match v with
  | Undefined => false
  | Str s => negb (String.eqb s "")
  | Num NaN => false
  | Num (Fin q) => negb (is_zero q)
  | Num _ => true
  end.

(** [a || b] *)
Definition or (a b : value) : value := if truthy a then a else b.

(** *** [StringToNumber] *)

(** White space and line terminators of one byte: TAB, LF, VT, FF, CR
    and the space. *)
Definition is_ws (c : ascii) : bool :=
  let n := nat_of_ascii c in
  ((9 <=? n)%nat && (n <=? 13)%nat) || (n =? 32)%nat.

(** Of two bytes: U+00A0. *)
Definition is_ws2 (a b : ascii) : bool :=
  ((nat_of_ascii a =? 194) && (nat_of_ascii b =? 160))%nat.

(** Of three bytes: U+1680, U+2000 to U+200A, U+2028, U+2029, U+202F,
    U+205F, U+3000 and U+FEFF. *)
Definition is_ws3 (a b c : ascii) : bool :=
  let x := nat_of_ascii a in
  let y := nat_of_ascii b in
  let z := nat_of_ascii c in
  (((x =? 225) && (y =? 154) && (z =? 128))
   || ((x =? 226) && (y =? 128)
       && (((128 <=? z) && (z <=? 138)) || (z =? 168) || (z =? 169) || (z =? 175)))
   || ((x =? 226) && (y =? 129) && (z =? 159))
   || ((x =? 227) && (y =? 128) && (z =? 128))
   || ((x =? 239) && (y =? 187) && (z =? 191)))%nat.

Fixpoint trim_left (l : list ascii) : list ascii :=
  match l with
  | a :: t =>
      if is_ws a then trim_left t
      else
        match t with
        | b :: t2 =>
            if is_ws2 a b then trim_left t2
            else
              match t2 with
              | c :: t3 => if is_ws3 a b c then trim_left t3 else l
              | [] => l
              end
        | [] => l
        end
  | [] => []
  end.

(** The same on a reversed string, whose characters have their bytes
    in reverse. *)
Fixpoint trim_left_reversed (l : list ascii) : list ascii :=
  match l with
  | a :: t =>
      if is_ws a then trim_left_reversed t
      else
        match t with
        | b :: t2 =>
            if is_ws2 b a then trim_left_reversed t2
            else
              match t2 with
              | c :: t3 => if is_ws3 c b a then trim_left_reversed t3 else l
              | [] => l
              end
        | [] => l
        end
  | [] => []
  end.

Definition trim (l : list ascii) : list ascii :=
  rev (trim_left_reversed (rev (trim_left l))).

Definition digit_of (base : Z) (c : ascii) : option Z :=
  let n := Z.of_nat (nat_of_ascii c) in
  let d :=
    if (48 <=? n) && (n <=? 57) then Some (n - 48)
    else if (97 <=? n) && (n <=? 102) then Some (n - 87)
    else if (65 <=? n) && (n <=? 70) then Some (n - 55)
    else None in
  match d with
  | Some k => if k <? base then Some k else None
  | None => None
  end.

(** Longest prefix of base-[base] digits: its value, its length and the
    rest of the input. *)
Fixpoint digits (base : Z) (acc : Z) (len : nat) (l : list ascii)
  : Z * nat * list ascii :=
  match l with
  | c :: t =>
      match digit_of base c with
      | Some d => digits base (base * acc + d) (S len) t
      | None => (acc, len, l)
      end
  | [] => (acc, len, [])
  end.

(** [m * 10^k] as a rational. *)
Definition scale10 (m k : Z) : Q :=
  if 0 <=? k then inject_Z (m * 10 ^ k)
  else Qmake m (Z.to_pos (10 ^ (- k))).

(** The exponent part: empty, or [e]/[E], an optional sign and digits. *)
Definition exponent (l : list ascii) : option Z :=
  match l with
  | [] => Some 0
  | c :: t =>
      if (Ascii.eqb c "e"%char || Ascii.eqb c "E"%char)%bool then
        let '(neg, t') :=
          match t with
          | s :: u =>
              if Ascii.eqb s "-"%char then (true, u)
              else if Ascii.eqb s "+"%char then (false, u)
              else (false, t)
          | [] => (false, t)
          end in
        match digits 10 0 0 t' with
        | (v, S _, []) => Some (if neg then - v else v)
        | _ => None
        end
      else None
  end.

(** [StrUnsignedDecimalLiteral] without [Infinity]. *)
Definition unsigned_decimal (l : list ascii) : option Q :=
  let '(ip, ilen, r1) := digits 10 0 0 l in
  let '(m, flen, r2) :=
    match r1 with
    | c :: t =>
        if Ascii.eqb c "."%char then
          let '(m, tot, r) := digits 10 ip ilen t in
          (m, (tot - ilen)%nat, r)
        else (ip, 0%nat, r1)
    | [] => (ip, 0%nat, r1)
    end in
  match (ilen + flen)%nat with
  | O => None
  | S _ =>
      match exponent r2 with
      | Some e => Some (scale10 m (e - Z.of_nat flen))
      | None => None
      end
  end.

Definition infinity_lit : list ascii := list_ascii_of_string "Infinity".

Definition list_ascii_eqb (a b : list ascii) : bool :=
  String.eqb (string_of_list_ascii a) (string_of_list_ascii b).

Definition unsigned_literal (l : list ascii) : num :=
  if list_ascii_eqb l infinity_lit then PosInf
  else match unsigned_decimal l with
       | Some q => Fin q
       | None => NaN
       end.

Definition negate (n : num) : num :=
  match n with
  | NaN => NaN
  | PosInf => NegInf
  | NegInf => PosInf
  | Fin q => Fin (Qopp q)
  end.

(** [0x], [0o] and [0b] literals carry no sign. *)
Definition non_decimal (l : list ascii) : option num :=
  match l with
  | z :: p :: t =>
      if Ascii.eqb z "0"%char then
        let base :=
          if (Ascii.eqb p "x"%char || Ascii.eqb p "X"%char)%bool then Some 16
          else if (Ascii.eqb p "o"%char || Ascii.eqb p "O"%char)%bool then Some 8
          else if (Ascii.eqb p "b"%char || Ascii.eqb p "B"%char)%bool then Some 2
          else None in
        match base with
        | Some b =>
            match digits b 0 0 t with
            | (v, S _, []) => Some (Fin (inject_Z v))
            | _ => Some NaN
            end
        | None => None
        end
      else None
  | _ => None
  end.

(** The value a string writes, before rounding. *)
Definition StringNumericValue (s : string) : num :=
  match trim (list_ascii_of_string s) with
  | [] => Fin 0
  | (c :: t) as l =>
      match non_decimal l with
      | Some n => n
      | None =>
          if Ascii.eqb c "-"%char then negate (unsigned_literal t)
          else if Ascii.eqb c "+"%char then unsigned_literal t
          else unsigned_literal l
      end
  end.

(** *** Rounding to a double *)

(** [n / d >= 2 ^ k], for positive [n] and [d]. *)
Definition ge_pow2 (n d k : Z) : bool :=
  if 0 <=? k then d * 2 ^ k <=? n else d <=? n * 2 ^ (- k).

(** [n / d] to the nearest integer, halves to the even one. *)
Definition round_half_even (n d : Z) : Z :=
  let q := n / d in
  match 2 * (n mod d) ?= d with
  | Lt => q
  | Gt => q + 1
  | Eq => if Z.even q then q else q + 1
  end.

(** The double nearest to a positive rational: 53 significant bits,
    exponents down to [-1074], an infinity from [2 ^ 1024] on. *)
Definition nearest_double (q : Q) : num :=
  let n := Qnum q in
  let d := Zpos (Qden q) in
  let e0 := Z.log2 n - Z.log2 d in
  let e := if ge_pow2 n d e0 then e0 else e0 - 1 in
  let ex := Z.max (e - 52) (-1074) in
  if 0 <=? ex then
    let m := round_half_even n (d * 2 ^ ex) in
    if 2 ^ 1024 <=? m * 2 ^ ex then PosInf else Fin (inject_Z (m * 2 ^ ex))
  else
    let m := round_half_even (n * 2 ^ (- ex)) d in
    if m =? 0 then Fin 0 else Fin (Qmake m (Z.to_pos (2 ^ (- ex)))).

(** A value that is a double already is kept as it is written. *)
Definition keep (q : Q) (rounded : num) : num :=
  match rounded with
  | Fin v => if Qeq_bool q v then Fin q else Fin v
  | other => other
  end.

Definition RoundMVResult (n : num) : num :=
  match n with
  | Fin q =>
      if Qnum q =? 0 then Fin q
      else if 0 <? Qnum q then keep q (nearest_double q)
      else keep q (negate (nearest_double (Qopp q)))
  | other => other
  end.

Definition StringToNumber (s : string) : num :=
  RoundMVResult (StringNumericValue s).

(** [Number(v)] *)
Definition Number (v : value) : num :=
  match v with
  | Undefined => NaN
  | Str s => StringToNumber s
  | Num n => n
  end.

(** [!n] for a number. *)
Definition not (n : num) : bool := negb (truthy (Num n)).

(** [Math.min(a, b)] *)
Definition Math_min (a b : num) : num :=
  match a, b with
  | NaN, _ | _, NaN => NaN
  | NegInf, _ | _, NegInf => NegInf
  | PosInf, x | x, PosInf => x
  | Fin x, Fin y => if Qle_bool x y then Fin x else Fin y
  end.

(** A finite number that is a whole number, as an integer. *)
Definition as_integer (q : Q) : option Z :=
  if (Qnum q mod Zpos (Qden q) =? 0)%Z then Some (Qnum q / Zpos (Qden q))
  else None.

End JS.



(** ** Request bodies

    [express.json()] hands the handler the parsed JSON object: a finite
    map from property names to JSON values.  (A body that is a JSON
    array is refused by [Joi.object()] like any other invalid body.) *)

#[local] Set Warnings "-register-all".

Inductive json : Type :=
  | JNull
  | JBool (b : bool)
  | JNum (q : Q)
  | JStr (s : string)
  | JArr (l : list json)
  | JObj (l : list (string * json)).

Inductive gps : Type := On | Off.

(** The validated [value] that the handler destructures. *)
Record report : Type := {
  employee_id : Z;
  latitude : Q;
  longitude : Q;
  gps_status : gps;
  timestamp : option string
}.

(** ** The Joi schema *)

Module Joi.

Inductive error : Type :=
  | any_required (key : string)
  | any_only (key : string)
  | number_base (key : string)
  | number_unsafe (key : string)
  | number_integer (key : string)
  | number_min (key : string)
  | number_max (key : string)
  | string_base (key : string)
  | string_empty (key : string)
  | string_isoDate (key : string)
  | object_unknown (key : string).

Definition bind {A B : Type} (m : error + A) (k : A -> error + B) : error + B :=
  match m with
  | inl e => inl e
  | inr a => k a
  end.

Notation "'check' x <- m ; k" := (bind m (fun x => k))
  (at level 10, x name, m at level 100, k at level 200).

Definition MAX_SAFE_INTEGER : Z := 9007199254740991.

Section Schema.

(** Two behaviours of the library on strings are left open: which
    strings [Joi.number()] converts to numbers, and which strings
    [isoDate()] accepts, together with the form it gives them (the
    validated value is the date as [toISOString()] prints it). *)
Variable number_of_string : string -> option Q.
Variable isoDate : string -> option string.

(** [Joi.number()] *)
Definition number (key : string) (v : json) : error + Q :=
  check q <- match v with
             | JNum q => inr q
             | JStr s =>
                 match number_of_string s with
                 | Some q => inr q
                 | None => inl (number_base key)
                 end
             | _ => inl (number_base key)
             end;
  if Qle_bool (inject_Z (- MAX_SAFE_INTEGER)) q
     && Qle_bool q (inject_Z MAX_SAFE_INTEGER)
  then inr q else inl (number_unsafe key).

(** [.integer()] *)
Definition integer (key : string) (q : Q) : error + Z :=
  match JS.as_integer q with
  | Some z => inr z
  | None => inl (number_integer key)
  end.

(** [.min(lo)] and [.max(hi)] *)
Definition min (key : string) (lo : Z) (q : Q) : error + Q :=
  if Qle_bool (inject_Z lo) q then inr q else inl (number_min key).

Definition max (key : string) (hi : Z) (q : Q) : error + Q :=
  if Qle_bool q (inject_Z hi) then inr q else inl (number_max key).

(** [Joi.string().valid("on", "off")] *)
Definition on_off (key : string) (v : json) : error + gps :=
  match v with
  | JStr s =>
      if String.eqb s "on" then inr On
      else if String.eqb s "off" then inr Off
      else inl (any_only key)
  | _ => inl (any_only key)
  end.

(** [Joi.string().isoDate()] *)
Definition iso_string (key : string) (v : json) : error + string :=
  match v with
  | JStr s =>
      if String.eqb s "" then inl (string_empty key)
      else
        match isoDate s with
        | Some iso => inr iso
        | None => inl (string_isoDate key)
        end
  | _ => inl (string_base key)
  end.

Definition required {A : Type} (body : gmap string json) (key : string)
    (rule : string -> json -> error + A) : error + A :=
  match body !! key with
  | Some v => rule key v
  | None => inl (any_required key)
  end.

Definition optional {A : Type} (body : gmap string json) (key : string)
    (rule : string -> json -> error + A) : error + option A :=
  match body !! key with
  | Some v => check a <- rule key v; inr (Some a)
  | None => inr None
  end.

Definition schema_keys : list string :=
  ["employee_id"; "latitude"; "longitude"; "gps_status"; "timestamp"].

Definition is_schema_key (k : string) : bool :=
  existsb (String.eqb k) schema_keys.

(** Keys of the body that the schema does not declare. *)
Definition unknown_keys (body : gmap string json) : list string :=
  List.filter (fun k => negb (is_schema_key k)) (map fst (map_to_list body)).

(** [locationSchema.validate(req.body)]: the declared keys are checked
    in order, then undeclared keys are refused; the first failure is
    the reported [error]. *)
Definition validate (body : gmap string json) : error + report :=
  check employee_id <-
    required body "employee_id" (fun k v =>
      check q <- number k v;
      check z <- integer k q;
      check _ <- min k 1 q;
      inr z);
  check latitude <-
    required body "latitude" (fun k v =>
      check q <- number k v;
      check q <- min k (-90) q;
      max k 90 q);
  check longitude <-
    required body "longitude" (fun k v =>
      check q <- number k v;
      check q <- min k (-180) q;
      max k 180 q);
  check gps_status <- required body "gps_status" on_off;
  check timestamp <- optional body "timestamp" iso_string;
  match unknown_keys body with
  | k :: _ => inl (object_unknown k)
  | [] =>
      inr {| employee_id := employee_id;
             latitude := latitude;
             longitude := longitude;
             gps_status := gps_status;
             timestamp := timestamp |}
  end.

End Schema.

End Joi.

(** ** The persisted schema (db.js)

    The surrogate [id] columns are neither written nor read by the
    server, so a row is its remaining columns.  [DECIMAL(10,6)] values
    are kept in millionths of a degree, [TIMESTAMP]s in seconds. *)

Record live_row : Type := {
  live_employee_id : Z;
  live_latitude : Z;
  live_longitude : Z;
  live_gps_status : gps;
  live_last_update : Z
}.

Record history_row : Type := {
  hist_employee_id : Z;
  hist_latitude : Z;
  hist_longitude : Z;
  hist_gps_status : gps;
  hist_recorded_at : Z
}.

Record database : Type := {
  employee_live_location : list live_row;
  employee_location_history : list history_row
}.

Definition empty_database : database :=
  {| employee_live_location := []; employee_location_history := [] |}.

(** [v_employee_latest] selects the five columns of every live row. *)
Definition v_employee_latest (d : database) : list live_row :=
  employee_live_location d.

Module SQL.

(** Storing a number in an [INT] column; out of range is an error (the
    server's strict mode). *)
Definition INT (n : Z) : option Z :=
  if (-2147483648 <=? n) && (n <=? 2147483647) then Some n else None.

(** Rounding to [digits] fractional digits, halves away from zero. *)
Definition round_scaled (digits : Z) (q : Q) : Z :=
  let n := Qnum q * 10 ^ digits in
  let d := Zpos (Qden q) in
  Z.sgn n * ((2 * Z.abs n + d) / (2 * d)).

(** Storing a number in a [DECIMAL(10,6)] column: the fraction is
    rounded to six digits; more than four integer digits is an error. *)
Definition DECIMAL_10_6 (q : Q) : option Z :=
  let m := round_scaled 6 q in
  if Z.abs m <=? 9999999999 then Some m else None.

(** The number a stored [DECIMAL(10,6)] stands for. *)
Definition decimal_value (m : Z) : Q := Qmake m 1000000.

(** [INSERT ... ON DUPLICATE KEY UPDATE latitude=VALUES(latitude),
    longitude=VALUES(longitude), gps_status=VALUES(gps_status),
    last_update=NOW()] against the unique key [uniq_emp]. *)
Fixpoint upsert (new : live_row) (table : list live_row) : list live_row :=
  match table with
  | [] => [new]
  | r :: rest =>
      if live_employee_id r =? live_employee_id new then
        {| live_employee_id := live_employee_id r;
           live_latitude := live_latitude new;
           live_longitude := live_longitude new;
           live_gps_status := live_gps_status new;
           live_last_update := live_last_update new |} :: rest
      else r :: upsert new rest
  end.

(** The first statement of the handler, with [NOW()] read as [now]. *)
Definition upsert_live (r : report) (now : Z) (d : database) : option database :=
  match INT (employee_id r), DECIMAL_10_6 (latitude r), DECIMAL_10_6 (longitude r) with
  | Some emp, Some lat, Some lon =>
      Some {| employee_live_location :=
                upsert {| live_employee_id := emp;
                          live_latitude := lat;
                          live_longitude := lon;
                          live_gps_status := gps_status r;
                          live_last_update := now |}
                       (employee_live_location d);
              employee_location_history := employee_location_history d |}
  | _, _, _ => None
  end.

(** The second statement: a plain [INSERT] into the history table. *)
Definition insert_history (r : report) (now : Z) (d : database) : option database :=
  match INT (employee_id r), DECIMAL_10_6 (latitude r), DECIMAL_10_6 (longitude r) with
  | Some emp, Some lat, Some lon =>
      Some {| employee_live_location := employee_live_location d;
              employee_location_history :=
                employee_location_history d ++
                [{| hist_employee_id := emp;
                    hist_latitude := lat;
                    hist_longitude := lon;
                    hist_gps_status := gps_status r;
                    hist_recorded_at := now |}] |}
  | _, _, _ => None
  end.

(** A JavaScript number written into the statement text: [NaN] and the
    infinities do not form SQL number literals. *)
Definition literal (n : JS.num) : option Q :=
  match n with
  | JS.Fin q => Some q
  | _ => None
  end.

(** [LIMIT ?] takes a non-negative integer literal. *)
Definition limit_literal (n : JS.num) : option nat :=
  match n with
  | JS.Fin q =>
      match JS.as_integer q with
      | Some z => if 0 <=? z then Some (Z.to_nat z) else None
      | None => None
      end
  | _ => None
  end.

(** [WHERE employee_id = ?] *)
Definition where_employee (emp : Q) (r : history_row) : bool :=
  Qeq_bool (inject_Z (hist_employee_id r)) emp.

Definition newer_or_equal (a b : history_row) : Prop :=
  hist_recorded_at b <= hist_recorded_at a.

(** What [SELECT ... FROM employee_location_history WHERE employee_id = ?
    ORDER BY recorded_at DESC LIMIT ?] may return: the first [limit]
    rows of some arrangement of the matching rows in which
    [recorded_at] never increases.  Rows with equal [recorded_at] come
    in an order the server is free to choose. *)
Definition history_answer (d : database) (emp : Q) (limit : nat)
    (rows : list history_row) : Prop :=
  exists ordered,
    Permutation ordered (List.filter (where_employee emp) (employee_location_history d)) /\
    StronglySorted newer_or_equal ordered /\
    rows = firstn limit ordered.

(** A query engine picks one answer for every query. *)
Definition engine : Type := database -> Q -> nat -> list history_row.

Definition admissible (select : engine) : Prop :=
  forall d emp limit, history_answer d emp limit (select d emp limit).

(** Two engines.  Both sort by insertion; [scan_backward] meets the
    newest of several equal timestamps first, [scan_forward] the
    oldest. *)
Fixpoint insert_desc (r : history_row) (l : list history_row) : list history_row :=
  match l with
  | [] => [r]
  | x :: t =>
      if hist_recorded_at x <? hist_recorded_at r then r :: l
      else x :: insert_desc r t
  end.

Definition sort_desc (l : list history_row) : list history_row :=
  fold_right insert_desc [] l.

Definition scan_forward : engine := fun d emp limit =>
  firstn limit
    (sort_desc (rev (List.filter (where_employee emp) (employee_location_history d)))).

Definition scan_backward : engine := fun d emp limit =>
  firstn limit
    (sort_desc (List.filter (where_employee emp) (employee_location_history d))).

End SQL.

(** ** The running server

    The handlers are sequences of awaited calls that may throw.  They
    are written in a state-and-exception monad over the [world] that the
    calls act on: the committed database every reader sees, the open
    transaction of the handler's connection, the connected sockets and
    the frames handed to them. *)

Definition socket : Type := nat.

(** The object broadcast and returned by [POST /api/location];
    [payload_last_update] is the instant that [toISOString()] prints, in
    milliseconds. *)
Record payload : Type := {
  payload_employee_id : Z;
  payload_latitude : Q;
  payload_longitude : Q;
  payload_gps_status : gps;
  payload_last_update : Z
}.

Inductive frame : Type :=
  | hello (ts : Z)
  | location (obj : payload).

Record world : Type := {
  committed : database;
  pending : option database;
  wss_clients : list socket;
  sent : list (socket * frame)
}.

Definition initial_world : world :=
  {| committed := empty_database; pending := None; wss_clients := []; sent := [] |}.

Inductive db_call : Type :=
  | getConnection
  | beginTransaction
  | query_upsert
  | query_history
  | commit
  | rollback
  | query_select.

Inductive exn : Type :=
  | db_error (call : db_call)
  | send_error (c : socket).

(** What the surroundings decide during one request: which database
    calls fail, what the clocks read, and which sockets refuse a frame. *)
Record env : Type := {
  fails : db_call -> bool;
  NOW_upsert : Z;
  NOW_history : Z;
  Date_now : Z;
  send_throws : socket -> bool
}.

Inductive result (A : Type) : Type :=
  | Ok (a : A)
  | Throw (e : exn).
Arguments Ok {A} a.
Arguments Throw {A} e.

Definition M (A : Type) : Type := world -> result A * world.

Definition ret {A : Type} (a : A) : M A := fun w => (Ok a, w).

Definition throw {A : Type} (e : exn) : M A := fun w => (Throw e, w).

Definition bind {A B : Type} (m : M A) (k : A -> M B) : M B :=
  fun w =>
    match m w with
    | (Ok a, w') => k a w'
    | (Throw e, w') => (Throw e, w')
    end.

(** [await x <- m; k] runs [m], then [k]; an exception of [m] skips [k]. *)
Notation "'await' x <- m ; k" := (bind m (fun x => k))
  (at level 10, x name, m at level 100, k at level 200).

(** [try { body } catch (e) { handler }] *)
Definition try_catch {A : Type} (body : M A) (handler : exn -> M A) : M A :=
  fun w =>
    match body w with
    | (Ok a, w') => (Ok a, w')
    | (Throw e, w') => handler e w'
    end.

(** [try { body } finally { cleanup }] *)
Definition try_finally {A : Type} (body : M A) (cleanup : M unit) : M A :=
  fun w =>
    let '(r, w') := body w in
    match cleanup w' with
    | (Ok _, w'') => (r, w'')
    | (Throw e, w'') => (Throw e, w'')
    end.

(** *** The connection *)

Definition set_pending (p : option database) (w : world) : world :=
  {| committed := committed w; pending := p;
     wss_clients := wss_clients w; sent := sent w |}.

Definition set_committed (d : database) (w : world) : world :=
  {| committed := d; pending := pending w;
     wss_clients := wss_clients w; sent := sent w |}.

Definition pool_getConnection (e : env) : M unit := fun w =>
  if fails e getConnection then (Throw (db_error getConnection), w)
  else (Ok tt, w).

(** A transaction starts from the committed data: the connection it
    runs on is taken to have none open (a connection whose rollback
    failed is not handed out again). *)
Definition conn_beginTransaction (e : env) : M unit := fun w =>
  if fails e beginTransaction then (Throw (db_error beginTransaction), w)
  else (Ok tt, set_pending (Some (committed w)) w).

(** A writing statement acts on the open transaction, or at once on the
    committed data when there is none.  A statement that fails changes
    nothing. *)
Definition conn_query (e : env) (call : db_call)
    (statement : database -> option database) : M unit := fun w =>
  if fails e call then (Throw (db_error call), w)
  else
    match pending w with
    | Some d =>
        match statement d with
        | Some d' => (Ok tt, set_pending (Some d') w)
        | None => (Throw (db_error call), w)
        end
    | None =>
        match statement (committed w) with
        | Some d' => (Ok tt, set_committed d' w)
        | None => (Throw (db_error call), w)
        end
    end.

Definition conn_commit (e : env) : M unit := fun w =>
  if fails e commit then (Throw (db_error commit), w)
  else
    match pending w with
    | Some d => (Ok tt, set_pending None (set_committed d w))
    | None => (Ok tt, w)
    end.

Definition conn_rollback (e : env) : M unit := fun w =>
  if fails e rollback then (Throw (db_error rollback), w)
  else (Ok tt, set_pending None w).

(** [conn.release()] hands the connection back to the pool and sends
    nothing to the server: a transaction that is still open stays
    open. *)
Definition conn_release : M unit := fun w => (Ok tt, w).

(** [pool.query] of a [SELECT]: reads committed data only. *)
Definition pool_query {A : Type} (e : env) (statement : database -> option A)
    : M A := fun w =>
  if fails e query_select then (Throw (db_error query_select), w)
  else
    match statement (committed w) with
    | Some a => (Ok a, w)
    | None => (Throw (db_error query_select), w)
    end.

(** *** The WebSocket server *)

(** [c.send(msg)] *)
Definition socket_send (e : env) (c : socket) (msg : frame) : M unit := fun w =>
  if send_throws e c then (Throw (send_error c), w)
  else
    (Ok tt, {| committed := committed w; pending := pending w;
               wss_clients := wss_clients w;
               sent := sent w ++ [(c, msg)] |}).

(** [clients.forEach(f)]: an exception of [f] ends the loop. *)
Fixpoint forEach (clients : list socket) (f : socket -> M unit) : M unit :=
  match clients with
  | [] => ret tt
  | c :: rest => await _ <- f c; forEach rest f
  end.

Definition broadcast (e : env) (obj : payload) : M unit := fun w =>
  let msg := location obj in
  forEach (wss_clients w)
    (fun c => try_catch (socket_send e c msg) (fun _ => ret tt)) w.

(** [wss.on("connection", ...)] and the socket's removal from
    [wss.clients] when it closes. *)
Definition on_connection (e : env) (c : socket) : M unit := fun w =>
  socket_send e c (hello (Date_now e))
    {| committed := committed w; pending := pending w;
       wss_clients := wss_clients w ++ [c]; sent := sent w |}.

Definition on_close (c : socket) : M unit := fun w =>
  (Ok tt, {| committed := committed w; pending := pending w;
             wss_clients := List.filter (fun c' => negb (Nat.eqb c' c)) (wss_clients w);
             sent := sent w |}).

(** *** Responses *)

Inductive response_body : Type :=
  | invalid (error : Joi.error)
  | failure (error : string)
  | updated (data : payload)
  | live_rows (data : list live_row)
  | history_rows (data : list history_row).

Record response : Type := {
  status : Z;
  body : response_body
}.

Definition json_response (code : Z) (b : response_body) : M response :=
  ret {| status := code; body := b |}.

(** *** The handlers *)

Section Handlers.

Variable number_of_string : string -> option Q.
Variable isoDate : string -> option string.
Variable select : SQL.engine.

Definition locationSchema_validate : gmap string json -> Joi.error + report :=
  Joi.validate number_of_string isoDate.

(** [app.post("/api/location", ...)] *)
Definition post_location (e : env) (req_body : gmap string json) : M response :=
  match locationSchema_validate req_body with
  | inl error => json_response 400 (invalid error)
  | inr value =>
      await _ <- pool_getConnection e;
      try_finally
        (try_catch
           (await _ <- conn_beginTransaction e;
            await _ <- conn_query e query_upsert (SQL.upsert_live value (NOW_upsert e));
            await _ <- conn_query e query_history (SQL.insert_history value (NOW_history e));
            await _ <- conn_commit e;
            let obj :=
              {| payload_employee_id := employee_id value;
                 payload_latitude := latitude value;
                 payload_longitude := longitude value;
                 payload_gps_status := gps_status value;
                 payload_last_update := Date_now e |} in
            await _ <- broadcast e obj;
            json_response 200 (updated obj))
           (fun _ =>
              await _ <- conn_rollback e;
              json_response 500 (failure "Database error")))
        conn_release
  end.

(** [app.get("/api/locations", ...)] *)
Definition get_locations (e : env) : M response :=
  try_catch
    (await rows <- pool_query e (fun d => Some (v_employee_latest d));
     json_response 200 (live_rows rows))
    (fun _ => json_response 500 (failure "Database error")).

(** The [limit] of the history request. *)
Definition history_limit (query_limit : JS.value) : JS.num :=
  JS.Math_min (JS.Number (JS.or query_limit (JS.Num (JS.Fin 500)))) (JS.Fin 5000).

Definition select_history (employee_id limit : JS.num) (d : database)
    : option (list history_row) :=
  match SQL.literal employee_id, SQL.limit_literal limit with
  | Some emp, Some n => Some (select d emp n)
  | _, _ => None
  end.

(** [app.get("/api/locations/:employee_id/history", ...)] *)
Definition get_history (e : env) (params_employee_id : string)
    (query_limit : JS.value) : M response :=
  let employee_id := JS.Number (JS.Str params_employee_id) in
  let limit := history_limit query_limit in
  if JS.not employee_id then json_response 400 (failure "Invalid employee_id")
  else
    try_catch
      (await rows <- pool_query e (select_history employee_id limit);
       json_response 200 (history_rows rows))
      (fun _ => json_response 500 (failure "Database error")).

End Handlers.

(** A handler that ends in an uncaught exception sends no response. *)
Definition respond (m : M response) (w : world) : option response * world :=
  match m w with
  | (Ok r, w') => (Some r, w')
  | (Throw _, w') => (None, w')
  end.

(** *** Runs of the server

    One step is one request or one socket event, under any behaviour of
    the surroundings. *)

Inductive step : world -> world -> Prop :=
  | step_post nos iso e req_body w :
      step w (snd (respond (post_location nos iso e req_body) w))
  | step_locations e w :
      step w (snd (respond (get_locations e) w))
  | step_history sel e id lim w :
      step w (snd (respond (get_history sel e id lim) w))
  | step_connection e c w :
      step w (snd (on_connection e c w))
  | step_close c w :
      step w (snd (on_close c w)).

Inductive reachable : world -> Prop :=
  | reachable_initial : reachable initial_world
  | reachable_step w w' : reachable w -> step w w' -> reachable w'.

(** ** Concrete surroundings for examples *)

Module Sample.

(** Plain decimal notation, the least a numeric string can be. *)
Definition number_of_string (s : string) : option Q :=
  match JS.trim (list_ascii_of_string s) with
  | [] => None
  | (c :: t) as l =>
      if Ascii.eqb c "-"%char then option_map Qopp (JS.unsigned_decimal t)
      else JS.unsigned_decimal l
  end.

(** A sample of [isoDate()]: UTC dates [YYYY-MM-DD] with a month from
    01 to 12 and a day from 01 to 28, alone or followed by
    [Thh:mm:ssZ]; the value is what [toISOString()] prints for it. *)
Definition two_digits (l : list ascii) (i : nat) : Z :=
  fst (fst (JS.digits 10 0 0 (firstn 2 (skipn i l)))).

Definition isoDate (s : string) : option string :=
  let l := list_ascii_of_string s in
  let shape :=
    string_of_list_ascii
      (map (fun c => match JS.digit_of 10 c with Some _ => "d"%char | None => c end) l) in
  let date_ok :=
    (1 <=? two_digits l 5) && (two_digits l 5 <=? 12)
    && (1 <=? two_digits l 8) && (two_digits l 8 <=? 28) in
  let time_ok :=
    (two_digits l 11 <=? 23) && (two_digits l 14 <=? 59) && (two_digits l 17 <=? 59) in
  if String.eqb shape "dddd-dd-dd" then
    if date_ok then Some (String.append s "T00:00:00.000Z") else None
  else if String.eqb shape "dddd-dd-ddTdd:dd:ddZ" then
    if date_ok && time_ok
    then Some (String.append (string_of_list_ascii (firstn 19 l)) ".000Z")
    else None
  else None.

(** U+00A0 and U+FEFF in UTF-8: white space to [Number]. *)
Definition nbsp : string :=
  String (ascii_of_nat 194) (String (ascii_of_nat 160) EmptyString).
Definition bom : string :=
  String (ascii_of_nat 239) (String (ascii_of_nat 187)
    (String (ascii_of_nat 191) EmptyString)).

Definition quiet : env :=
  {| fails := fun _ => false;
     NOW_upsert := 1700000000;
     NOW_history := 1700000000;
     Date_now := 1700000000250;
     send_throws := fun _ => false |}.

Definition report_body (id : Z) (lat lon : Q) (st : string) : gmap string json :=
  <["employee_id" := JNum (inject_Z id)]>
    (<["latitude" := JNum lat]>
       (<["longitude" := JNum lon]>
          (<["gps_status" := JStr st]> ∅))).

Definition post (e : env) (b : gmap string json) (w : world) : option response * world :=
  respond (post_location number_of_string isoDate e b) w.

End Sample.

(** ** Notions used in the statements, and sample worlds *)

(** The frames a broadcast of [msg] hands over: one for every client
    whose [send] does not throw, in the order of the client set. *)
Definition delivered (e : env) (msg : frame) (clients : list socket)
    : list (socket * frame) :=
  map (fun c => (c, msg)) (List.filter (fun c => negb (send_throws e c)) clients).

Module BroadcastExample.

Definition both : world :=
  {| committed := empty_database; pending := None;
     wss_clients := [1%nat; 2%nat]; sent := [] |}.

Definition first_broken : env :=
  {| fails := fun _ => false; NOW_upsert := 10; NOW_history := 10;
     Date_now := 10000; send_throws := Nat.eqb 1 |}.

Definition event (t : Z) : payload :=
  {| payload_employee_id := 7; payload_latitude := 1; payload_longitude := 2;
     payload_gps_status := On; payload_last_update := t |}.

End BroadcastExample.

(** What the [try] block of the handler commits, if anything. *)
Definition transaction (e : env) (value : report) (d : database) : option database :=
  if fails e beginTransaction then None
  else if fails e query_upsert then None
  else
    match SQL.upsert_live value (NOW_upsert e) d with
    | None => None
    | Some d1 =>
        if fails e query_history then None
        else
          match SQL.insert_history value (NOW_history e) d1 with
          | None => None
          | Some d2 => if fails e commit then None else Some d2
          end
    end.

(** The [payload] object literal of the handler. *)
Definition payload_of (e : env) (value : report) : payload :=
  {| payload_employee_id := employee_id value;
     payload_latitude := latitude value;
     payload_longitude := longitude value;
     payload_gps_status := gps_status value;
     payload_last_update := Date_now e |}.

(** The world with no transaction open. *)
Definition closed (w : world) : world := set_pending None w.

(** The transaction that is open on the connection when the [try]
    block throws. *)
Definition left_open (e : env) (value : report) (w : world) : option database :=
  if fails e beginTransaction then pending w
  else if fails e query_upsert then Some (committed w)
  else
    match SQL.upsert_live value (NOW_upsert e) (committed w) with
    | None => Some (committed w)
    | Some d1 =>
        if fails e query_history then Some d1
        else
          match SQL.insert_history value (NOW_history e) d1 with
          | None => Some d1
          | Some d2 => Some d2
          end
    end.

Module RollbackExample.

Definition history_insert_fails : env :=
  {| fails := fun c => match c with query_history => true | _ => false end;
     NOW_upsert := 20; NOW_history := 20; Date_now := 20000;
     send_throws := fun _ => false |}.


Definition req_body : gmap string json :=
  Sample.report_body 7 (129716 # 10000) (775946 # 10000) "on".

Definition value : report :=
  {| employee_id := 7; latitude := 129716 # 10000; longitude := 775946 # 10000;
     gps_status := On; timestamp := None |}.

Definition listening : world :=
  {| committed := empty_database; pending := None;
     wss_clients := [1%nat]; sent := [] |}.

End RollbackExample.

(** The number a body gives under [key], if it gives one. *)
Definition coordinate (number_of_string : string -> option Q)
    (req_body : gmap string json) (key : string) : option Q :=
  match req_body !! key with
  | Some (JNum q) => Some q
  | Some (JStr s) => number_of_string s
  | _ => None
  end.

(** The part of a validated report that the handler reads. *)
Definition read_fields (value : report) : Z * Q * Q * gps :=
  (employee_id value, latitude value, longitude value, gps_status value).

Module TimestampExample.

Definition stamped : gmap string json :=
  <["timestamp" := JStr "2001-02-03T04:05:06Z"]> RollbackExample.req_body.

Definition stamped_value : report :=
  {| employee_id := 7; latitude := 129716 # 10000; longitude := 775946 # 10000;
     gps_status := On; timestamp := Some "2001-02-03T04:05:06.000Z" |}.

End TimestampExample.

(** The [employee_id] column of the current-position table. *)
Definition live_keys (d : database) : list Z :=
  map live_employee_id (employee_live_location d).

(** What a committed transaction wrote. *)
Definition live_row_of (e : env) (value : report) (lat lon : Z) : live_row :=
  {| live_employee_id := employee_id value;
     live_latitude := lat; live_longitude := lon;
     live_gps_status := gps_status value;
     live_last_update := NOW_upsert e |}.

Definition history_row_of (e : env) (value : report) (lat lon : Z) : history_row :=
  {| hist_employee_id := employee_id value;
     hist_latitude := lat; hist_longitude := lon;
     hist_gps_status := gps_status value;
     hist_recorded_at := NOW_history e |}.

Module UpsertExample.

Definition after_first_report : world :=
  snd (Sample.post Sample.quiet RollbackExample.req_body initial_world).

End UpsertExample.

Module ClockExample.

(** The second statement runs after the database clock has ticked. *)
Definition tick_between : env :=
  {| fails := fun _ => false;
     NOW_upsert := 100; NOW_history := 101; Date_now := 101004;
     send_throws := fun _ => false |}.

Definition fine_grained : gmap string json :=
  Sample.report_body 7 (123456789 # 10000000) (775946 # 10000) "on".

End ClockExample.

(** Every [SELECT] fails. *)
Definition store_down : env :=
  {| fails := fun c => match c with query_select => true | _ => false end;
     NOW_upsert := 0; NOW_history := 0; Date_now := 0;
     send_throws := fun _ => false |}.

Module ReadBackExample.

Definition on_report : gmap string json :=
  Sample.report_body 7 (129716 # 10000) (775946 # 10000) "on".

Definition off_report : gmap string json :=
  Sample.report_body 7 (129716 # 10000) (775946 # 10000) "off".

(** Two reports of worker 7 within one second of the database clock. *)
Definition after_on : world := snd (Sample.post Sample.quiet on_report initial_world).
Definition after_off : world := snd (Sample.post Sample.quiet off_report after_on).

Definition after_fine_grained : world :=
  snd (Sample.post Sample.quiet ClockExample.fine_grained initial_world).

(** A minute after [Sample.quiet]. *)
Definition later : env :=
  {| fails := fun _ => false;
     NOW_upsert := 1700000060; NOW_history := 1700000060;
     Date_now := 1700000060250;
     send_throws := fun _ => false |}.

(** The database clock has been set back by a minute. *)
Definition set_back : env :=
  {| fails := fun _ => false;
     NOW_upsert := 1699999940; NOW_history := 1699999940;
     Date_now := 1699999940250;
     send_throws := fun _ => false |}.

Definition fine_off : gmap string json :=
  Sample.report_body 7 (123456789 # 10000000) (775946 # 10000) "off".

Definition fine_off_value : report :=
  {| employee_id := 7; latitude := 123456789 # 10000000;
     longitude := 775946 # 10000; gps_status := Off; timestamp := None |}.

Definition after_fine_off : world := snd (Sample.post later fine_off after_on).

Definition after_set_back : world := snd (Sample.post set_back off_report after_on).

End ReadBackExample.

From Stdlib Require DecimalString DecimalPos.

(** ** Further notions: well-formed reports, stored values, lookups *)

(** The string a status is written as in a report. *)
Definition gps_name (g : gps) : string :=
  match g with
  | On => "on"
  | Off => "off"
  end.

(** A body that gives exactly the fields of [value], as JSON numbers
    and strings, and nothing outside the schema; a [timestamp] is given
    by a string of which the validated one is the ISO form. *)
Definition states (isoDate : string -> option string) (req_body : gmap string json)
    (value : report) : Prop :=
  (exists q, req_body !! "employee_id" = Some (JNum q) /\
             JS.as_integer q = Some (employee_id value)) /\
  req_body !! "latitude" = Some (JNum (latitude value)) /\
  req_body !! "longitude" = Some (JNum (longitude value)) /\
  req_body !! "gps_status" = Some (JStr (gps_name (gps_status value))) /\
  match timestamp value with
  | Some iso =>
      exists s, req_body !! "timestamp" = Some (JStr s) /\ s <> "" /\
                isoDate s = Some iso
  | None => req_body !! "timestamp" = None
  end /\
  (forall k, is_Some (req_body !! k) -> Joi.is_schema_key k = true).

(** The ranges of the schema. *)
Definition in_schema_ranges (value : report) : Prop :=
  1 <= employee_id value <= Joi.MAX_SAFE_INTEGER /\
  (-90 <= latitude value /\ latitude value <= 90)%Q /\
  (-180 <= longitude value /\ longitude value <= 180)%Q.

(** The fields a report cannot do without. *)
Definition required_keys : list string :=
  ["employee_id"; "latitude"; "longitude"; "gps_status"].

(** The surroundings are healthy: no database call fails. *)
Definition healthy (e : env) : Prop := forall call, fails e call = false.

(** The response is not a 200. *)
Definition not_ok (r : option response) : Prop :=
  match r with
  | Some r => status r <> 200
  | None => True
  end.

(** What the columns can hold once a report went through the schema:
    a worker id from 1 to the top of [INT], and coordinates, in
    millionths of a degree, within the bounds of the schema. *)
Definition stored_values_ok (emp lat lon : Z) : Prop :=
  1 <= emp <= 2147483647 /\
  -90000000 <= lat <= 90000000 /\
  -180000000 <= lon <= 180000000.

Definition stored_in_range (d : database) : Prop :=
  Forall (fun r => stored_values_ok (live_employee_id r) (live_latitude r)
                     (live_longitude r))
         (employee_live_location d) /\
  Forall (fun h => stored_values_ok (hist_employee_id h) (hist_latitude h)
                     (hist_longitude h))
         (employee_location_history d).

(** [SELECT ... FROM employee_live_location WHERE employee_id = id]. *)
Definition current_of (d : database) (id : Z) : option live_row :=
  List.find (fun r => live_employee_id r =? id) (employee_live_location d).

(** The history records of a worker, oldest first, and the latest one. *)
Definition records_of (d : database) (id : Z) : list history_row :=
  List.filter (fun h => hist_employee_id h =? id) (employee_location_history d).

Definition last_record (d : database) (id : Z) : option history_row :=
  last (records_of d id).

(** A current row and a history record say the same about a worker. *)
Definition agrees (l : live_row) (h : history_row) : Prop :=
  live_employee_id l = hist_employee_id h /\
  live_latitude l = hist_latitude h /\
  live_longitude l = hist_longitude h /\
  live_gps_status l = hist_gps_status h.

(** The two tables tell one story: every current row repeats the
    worker's latest history record, and every worker with history has
    a current row. *)
Definition tables_agree (d : database) : Prop :=
  (forall l, In l (employee_live_location d) ->
             exists h, last_record d (live_employee_id l) = Some h /\ agrees l h) /\
  (forall h, In h (employee_location_history d) ->
             In (hist_employee_id h) (live_keys d)).

(** The decimal notation of a positive whole number, as it appears in a
    URL or a query string. *)
Definition decimal (p : positive) : string :=
  DecimalString.NilEmpty.string_of_uint (Pos.to_uint p).

Definition digit_chars : list ascii :=
  ["0"; "1"; "2"; "3"; "4"; "5"; "6"; "7"; "8"; "9"]%char.

(** The characters of a decimal numeral. *)
Definition uint_chars (d : Decimal.uint) : list ascii :=
  list_ascii_of_string (DecimalString.NilEmpty.string_of_uint d).

(** The frames handed to one socket, in the order they were sent. *)
Definition frames_to (c : socket) (l : list (socket * frame)) : list frame :=
  map snd (List.filter (fun cf => Nat.eqb (fst cf) c) l).

(** ** The health endpoint *)

Record health_response : Type := {
  health_code : Z;
  health_status : string
}.

(** [app.get("/health", ...)] *)
Definition get_health (e : env) : M health_response :=
  try_catch
    (await _ <- pool_query e (fun _ => Some tt);
     ret {| health_code := 200; health_status := "ok" |})
    (fun _ => ret {| health_code := 500; health_status := "db_error" |}).

(** ** Schema set-up (db.js)

    [ensureSchema] runs four statements on one connection of the pool
    and releases the connection in a [finally].  The catalog says which
    of the two tables exist, with their rows, and whether the view
    exists; [in_use] counts the connections out of the pool.  Data
    definition statements take effect at once, outside any
    transaction. *)

Module Schema.

Record catalog : Type := {
  live_table : option (list live_row);
  history_table : option (list history_row);
  latest_view : bool
}.

Record store : Type := {
  cat : catalog;
  in_use : nat
}.

Inductive statement : Type :=
  | set_sql_mode
  | create_live_table
  | create_history_table
  | create_view.

Inductive outcome : Type :=
  | resolved
  | no_connection
  | rejected_at (s : statement).

Record faults : Type := {
  getConnection_fails : bool;
  statement_fails : statement -> bool
}.

(** One [conn.query]: [CREATE TABLE IF NOT EXISTS] leaves a table that
    is there as it is; [CREATE OR REPLACE VIEW] needs the table it
    selects from. *)
Definition query (f : faults) (s : statement) (c : catalog) : option catalog :=
  if statement_fails f s then None
  else
    match s with
    | set_sql_mode => Some c
    | create_live_table =>
        Some {| live_table := Some (default [] (live_table c));
                history_table := history_table c;
                latest_view := latest_view c |}
    | create_history_table =>
        Some {| live_table := live_table c;
                history_table := Some (default [] (history_table c));
                latest_view := latest_view c |}
    | create_view =>
        match live_table c with
        | Some _ =>
            Some {| live_table := live_table c;
                    history_table := history_table c;
                    latest_view := true |}
        | None => None
        end
    end.

(** The awaited statements of the [try] block, up to the first that
    throws. *)
Fixpoint queries (f : faults) (l : list statement) (c : catalog)
  : catalog * option statement :=
  match l with
  | [] => (c, None)
  | s :: rest =>
      match query f s c with
      | Some c' => queries f rest c'
      | None => (c, Some s)
      end
  end.

Definition ensureSchema (f : faults) (st : store) : outcome * store :=
  if getConnection_fails f then (no_connection, st)
  else
    let leased := {| cat := cat st; in_use := S (in_use st) |} in
    let '(c, thrown) :=
      queries f [set_sql_mode; create_live_table; create_history_table; create_view]
        (cat leased) in
    let released := {| cat := c; in_use := Nat.pred (in_use leased) |} in
    match thrown with
    | None => (resolved, released)
    | Some s => (rejected_at s, released)
    end.

Definition no_faults : faults :=
  {| getConnection_fails := false; statement_fails := fun _ => false |}.

Definition empty_catalog : catalog :=
  {| live_table := None; history_table := None; latest_view := false |}.

(** The catalog of a server that holds the database [d]. *)
Definition holding (d : database) : catalog :=
  {| live_table := Some (employee_live_location d);
     history_table := Some (employee_location_history d);
     latest_view := true |}.

End Schema.

(** ** More sample worlds *)

Module ExtraExample.

Definition no_latitude : gmap string json :=
  delete "latitude" RollbackExample.req_body.

Definition fractional_id : gmap string json :=
  <["employee_id" := JNum (15 # 10)]> RollbackExample.req_body.

Definition standby : gmap string json :=
  <["gps_status" := JStr "standby"]> RollbackExample.req_body.

(** Socket 1 connects after the first report of worker 7. *)
Definition joined : world :=
  snd (on_connection Sample.quiet 1%nat ReadBackExample.after_on).

Definition after_joined_off : world :=
  snd (Sample.post Sample.quiet ReadBackExample.off_report joined).

(** Two reports while sockets 1 and 2 listen. *)
Definition both_after_on : world :=
  snd (Sample.post Sample.quiet ReadBackExample.on_report BroadcastExample.both).

Definition both_after_off : world :=
  snd (Sample.post Sample.quiet ReadBackExample.off_report both_after_on).

End ExtraExample.

(** * Properties *)

(** ** [Number] on sample strings *)

Example number_examples :
  JS.Number (JS.Str "42") = JS.Fin 42 /\
  JS.Number (JS.Str "-5") = JS.Fin (-5) /\
  JS.Number (JS.Str " 7 ") = JS.Fin 7 /\
  JS.Number (JS.Str "0") = JS.Fin 0 /\
  JS.Number (JS.Str "") = JS.Fin 0 /\
  JS.Number (JS.Str "abc") = JS.NaN /\
  JS.Number (JS.Str "12abc") = JS.NaN /\
  JS.Number (JS.Str "1.5") = JS.Fin (15 # 10) /\
  JS.Number (JS.Str ".5") = JS.Fin (5 # 10) /\
  JS.Number (JS.Str "5.") = JS.Fin 5 /\
  JS.Number (JS.Str ".") = JS.NaN /\
  JS.Number (JS.Str "1e3") = JS.Fin 1000 /\
  JS.Number (JS.Str "0x1F") = JS.Fin 31 /\
  JS.Number (JS.Str "-0x1F") = JS.NaN /\
  JS.Number (JS.Str "Infinity") = JS.PosInf /\
  JS.Number (JS.Str "-Infinity") = JS.NegInf /\
  JS.Number (JS.Str "999999") = JS.Fin 999999.
Proof. repeat split; reflexivity. Qed.

(** The value of the literal is rounded to the nearest double, ties to
    even; beyond the largest double it is an infinity, below half the
    smallest it is zero; Unicode white space is trimmed. *)
Example number_rounding_examples :
  JS.Number (JS.Str "9007199254740993") = JS.Fin 9007199254740992 /\
  JS.Number (JS.Str "9007199254740995") = JS.Fin 9007199254740996 /\
  (exists v, JS.Number (JS.Str "0.1") = JS.Fin v /\
             (v == 3602879701896397 # 36028797018963968)%Q) /\
  JS.Number (JS.Str "1.7976931348623159e308") = JS.PosInf /\
  JS.Number (JS.Str "-1e400") = JS.NegInf /\
  JS.Number (JS.Str "1e-400") = JS.Fin 0 /\
  JS.Number (JS.Str "2e-324") = JS.Fin 0 /\
  JS.Number (JS.Str (Sample.nbsp ++ "7" ++ Sample.bom)) = JS.Fin 7.
Proof.
  repeat split; try (vm_compute; reflexivity).
  eexists. split; [vm_compute; reflexivity|reflexivity].
Qed.


(** ** Broadcast *)

Lemma forEach_guarded_send e msg clients : forall w,
  forEach clients (fun c => try_catch (socket_send e c msg) (fun _ => ret tt)) w
  = (Ok tt, {| committed := committed w; pending := pending w;
               wss_clients := wss_clients w;
               sent := sent w ++ delivered e msg clients |}).
Proof.
  induction clients as [|c rest IH]; intros w.
  - destruct w; cbn. by rewrite app_nil_r.
  - cbn [forEach]. unfold bind, try_catch, socket_send, delivered.
    cbn [List.filter]. destruct (send_throws e c); cbn.
    + rewrite IH. reflexivity.
    + rewrite IH. cbn. by rewrite <- app_assoc.
Qed.

Lemma broadcast_run e obj w :
  broadcast e obj w
  = (Ok tt, {| committed := committed w; pending := pending w;
               wss_clients := wss_clients w;
               sent := sent w ++ delivered e (location obj) (wss_clients w) |}).
Proof. unfold broadcast. apply forEach_guarded_send. Qed.

(** C4 (as amended): a failing [send] is caught inside [broadcast]: the
    call returns normally under every behaviour of the sockets, every
    client whose [send] works receives the frame, in the order of the
    client set, and the client set is left as it was, so a client whose
    [send] failed is tried again by the next broadcast. *)
Theorem broadcast_contains_send_failures e obj w :
  exists w',
    broadcast e obj w = (Ok tt, w') /\
    sent w' = sent w ++ delivered e (location obj) (wss_clients w) /\
    (forall c, In c (wss_clients w) -> send_throws e c = false ->
               In (c, location obj) (sent w')) /\
    wss_clients w' = wss_clients w /\
    committed w' = committed w.
Proof.
  eexists. split; [apply broadcast_run|]. cbn. repeat split.
  intros c Hc Hs. apply in_or_app. right. unfold delivered.
  apply (in_map (fun c' => (c', location obj))).
  apply filter_In. split; [exact Hc|]. by rewrite Hs.
Qed.

(** C4, the part that fails: socket 1 refuses the first frame, stays in
    the client set, and is handed the second frame. *)
Lemma failed_observer_stays_subscribed :
  let w1 := snd (broadcast BroadcastExample.first_broken
                   (BroadcastExample.event 1) BroadcastExample.both) in
  let w2 := snd (broadcast Sample.quiet (BroadcastExample.event 2) w1) in
  send_throws BroadcastExample.first_broken 1%nat = true /\
  sent w1 = [(2%nat, location (BroadcastExample.event 1))] /\
  In 1%nat (wss_clients w1) /\
  In (1%nat, location (BroadcastExample.event 2)) (sent w2).
Proof. cbn. intuition. Qed.

(** ** Ingestion *)

Lemma post_invalid nos iso e req_body error w :
  locationSchema_validate nos iso req_body = inl error ->
  respond (post_location nos iso e req_body) w = (Some {| status := 400; body := invalid error |}, w).
Proof.
  unfold respond, post_location. intros ->. reflexivity.
Qed.

(** The handler on a valid report, case by case. *)
Lemma post_valid nos iso e req_body value w :
  locationSchema_validate nos iso req_body = inr value ->
  respond (post_location nos iso e req_body) w =
    if fails e getConnection then (None, w)
    else
      match transaction e value (committed w) with
      | Some d =>
          (Some {| status := 200; body := updated (payload_of e value) |},
           {| committed := d; pending := None;
              wss_clients := wss_clients w;
              sent := sent w ++
                      delivered e (location (payload_of e value)) (wss_clients w) |})
      | None =>
          if fails e rollback then (None, set_pending (left_open e value w) w)
          else (Some {| status := 500; body := failure "Database error" |},
                closed w)
      end.
Proof.
  unfold respond, post_location, transaction, left_open. intros ->.
  unfold bind at 1. unfold pool_getConnection.
  destruct (fails e getConnection); [reflexivity|].
  unfold try_finally, try_catch, bind, conn_beginTransaction, conn_query,
    conn_commit, conn_rollback, conn_release, json_response, ret.
  destruct (fails e beginTransaction).
  { destruct (fails e rollback); [by destruct w|reflexivity]. }
  destruct (fails e query_upsert);
    [destruct (fails e rollback); reflexivity|].
  cbn [pending set_pending committed].
  destruct (SQL.upsert_live value (NOW_upsert e) (committed w)) as [d1|];
    [|destruct (fails e rollback); reflexivity].
  destruct (fails e query_history);
    [destruct (fails e rollback); reflexivity|].
  cbn [pending set_pending committed].
  destruct (SQL.insert_history value (NOW_history e) d1) as [d2|];
    [|destruct (fails e rollback); reflexivity].
  destruct (fails e commit);
    [destruct (fails e rollback); reflexivity|].
  cbn [pending set_pending set_committed committed wss_clients sent].
  rewrite broadcast_run. reflexivity.
Qed.

(** A [200] comes from a valid report whose transaction committed. *)
Lemma post_success nos iso e req_body w data w' :
  respond (post_location nos iso e req_body) w = (Some {| status := 200; body := data |}, w') ->
  exists value d,
    locationSchema_validate nos iso req_body = inr value /\
    transaction e value (committed w) = Some d /\
    data = updated (payload_of e value) /\
    w' = {| committed := d; pending := None;
            wss_clients := wss_clients w;
            sent := sent w ++
                    delivered e (location (payload_of e value)) (wss_clients w) |}.
Proof.
  destruct (locationSchema_validate nos iso req_body) as [err|value] eqn:Hv.
  - rewrite (post_invalid _ _ _ _ _ _ Hv). intros [=].
  - rewrite (post_valid _ _ _ _ _ _ Hv).
    destruct (fails e getConnection); [intros [=]|].
    destruct (transaction e value (committed w)) as [d|] eqn:Ht.
    + intros [= <- <-]. exists value, d. auto.
    + destruct (fails e rollback); intros [=].
Qed.

(** Whatever the outcome, the committed data is what it was or what
    the whole transaction wrote. *)
Lemma post_committed nos iso e req_body w :
  committed (snd (respond (post_location nos iso e req_body) w)) = committed w \/
  exists value d,
    locationSchema_validate nos iso req_body = inr value /\
    transaction e value (committed w) = Some d /\
    committed (snd (respond (post_location nos iso e req_body) w)) = d.
Proof.
  destruct (locationSchema_validate nos iso req_body) as [err|value] eqn:Hv.
  - rewrite (post_invalid _ _ _ _ _ _ Hv). by left.
  - rewrite (post_valid _ _ _ _ _ _ Hv).
    destruct (fails e getConnection); [by left|].
    destruct (transaction e value (committed w)) as [d|] eqn:Ht.
    + right. exists value, d. auto.
    + left. by destruct (fails e rollback).
Qed.


(** Inside an open transaction a write stays in the working copy. *)
Lemma conn_query_uncommitted e call statement d w :
  pending w = Some d ->
  committed (snd (conn_query e call statement w)) = committed w.
Proof.
  intros Hp. unfold conn_query. rewrite Hp.
  destruct (fails e call); [reflexivity|].
  by destruct (statement d).
Qed.




(** The two ways in which the handler ends without a response: no
    connection to be had, and a rollback that throws as well.  Neither
    writes a table or sends a frame. *)
Lemma uncaught_failure_leaves_request_unanswered nos iso e req_body value w :
  locationSchema_validate nos iso req_body = inr value ->
  fails e getConnection = true \/
  (transaction e value (committed w) = None /\ fails e rollback = true) ->
  let outcome := respond (post_location nos iso e req_body) w in
  fst outcome = None /\
  committed (snd outcome) = committed w /\
  sent (snd outcome) = sent w.
Proof.
  intros Hv H outcome. subst outcome. rewrite (post_valid _ _ _ _ _ _ Hv).
  destruct (fails e getConnection); [by repeat split|].
  destruct H as [H|[Ht Hr]]; [discriminate|]. rewrite Ht, Hr. by repeat split.
Qed.

(** ** Validation *)

Lemma range_rule_rejects nos (req_body : gmap string json) key lo hi q :
  coordinate nos req_body key = Some q ->
  (q < inject_Z lo \/ inject_Z hi < q)%Q ->
  exists err,
    Joi.required req_body key (fun k v =>
      Joi.bind (Joi.number nos k v) (fun x =>
      Joi.bind (Joi.min k lo x) (fun x => Joi.max k hi x))) = inl err.
Proof.
  unfold coordinate, Joi.required. intros Hq Hr.
  destruct (req_body !! key) as [v|]; [|discriminate].
  assert (Hn : Joi.number nos key v = inr q \/ exists err, Joi.number nos key v = inl err).
  { unfold Joi.number.
    destruct v; try discriminate; cbn [Joi.bind].
    - injection Hq as ->.
      destruct (_ && _); eauto.
    - rewrite Hq. cbn [Joi.bind]. destruct (_ && _); eauto. }
  destruct Hn as [-> | [err ->]]; [|cbn; eauto].
  cbn [Joi.bind]. unfold Joi.min, Joi.max.
  destruct (Qle_bool (inject_Z lo) q) eqn:Hlo; [|cbn; eauto].
  cbn [Joi.bind].
  destruct (Qle_bool q (inject_Z hi)) eqn:Hhi; [|eauto].
  apply Qle_bool_iff in Hlo, Hhi.
  destruct Hr as [Hr|Hr]; exfalso; eapply Qlt_not_le; eauto.
Qed.

Lemma validate_out_of_range nos iso req_body q :
  (coordinate nos req_body "latitude" = Some q /\ (q < -90 \/ 90 < q)%Q) \/
  (coordinate nos req_body "longitude" = Some q /\ (q < -180 \/ 180 < q)%Q) ->
  exists err, locationSchema_validate nos iso req_body = inl err.
Proof.
  unfold locationSchema_validate, Joi.validate.
  intros H.
  destruct (Joi.required req_body "employee_id" _) as [err|z]; [cbn; eauto|].
  cbn [Joi.bind].
  destruct H as [[Hq Hr]|[Hq Hr]].
  - destruct (range_rule_rejects nos req_body "latitude" (-90) 90 q Hq Hr) as [err Herr].
    rewrite Herr. cbn. eauto.
  - destruct (Joi.required req_body "latitude" _) as [err|lat]; [cbn; eauto|].
    cbn [Joi.bind].
    destruct (range_rule_rejects nos req_body "longitude" (-180) 180 q Hq Hr) as [err Herr].
    rewrite Herr. cbn. eauto.
Qed.

(** C3: a report whose latitude is a number outside [-90, 90], or whose
    longitude is a number outside [-180, 180], is answered with 400 and
    the validation error; the world after the request is the world
    before it: no table is written and no frame is sent. *)
Theorem out_of_range_rejected nos iso e req_body q w :
  (coordinate nos req_body "latitude" = Some q /\ (q < -90 \/ 90 < q)%Q) \/
  (coordinate nos req_body "longitude" = Some q /\ (q < -180 \/ 180 < q)%Q) ->
  exists err,
    respond (post_location nos iso e req_body) w
    = (Some {| status := 400; body := invalid err |}, w).
Proof.
  intros H. destruct (validate_out_of_range nos iso req_body q H) as [err Herr].
  exists err. by apply post_invalid.
Qed.

Lemma out_of_range_rejected_witness :
  exists err,
    respond (post_location Sample.number_of_string Sample.isoDate Sample.quiet
               (Sample.report_body 7 (905 # 10) (775946 # 10000) "on"))
            RollbackExample.listening
    = (Some {| status := 400; body := invalid err |}, RollbackExample.listening).
Proof.
  apply (out_of_range_rejected Sample.number_of_string Sample.isoDate Sample.quiet
           (Sample.report_body 7 (905 # 10) (775946 # 10000) "on") (905 # 10)
           RollbackExample.listening).
  left. split; [vm_compute; reflexivity|]. right. reflexivity.
Defined.

Lemma unknown_key_listed (req_body : gmap string json) k v :
  req_body !! k = Some v ->
  Joi.is_schema_key k = false ->
  In k (Joi.unknown_keys req_body).
Proof.
  intros Hk Hs. unfold Joi.unknown_keys. apply filter_In. split.
  - apply (in_map fst _ (k, v)). apply list_elem_of_In.
    by apply elem_of_map_to_list.
  - by rewrite Hs.
Qed.

Lemma validate_unknown_key nos iso (req_body : gmap string json) k v :
  req_body !! k = Some v ->
  Joi.is_schema_key k = false ->
  exists err, locationSchema_validate nos iso req_body = inl err.
Proof.
  intros Hk Hs. unfold locationSchema_validate, Joi.validate.
  destruct (Joi.required req_body "employee_id" _); cbn [Joi.bind]; eauto.
  destruct (Joi.required req_body "latitude" _); cbn [Joi.bind]; eauto.
  destruct (Joi.required req_body "longitude" _); cbn [Joi.bind]; eauto.
  destruct (Joi.required req_body "gps_status" _); cbn [Joi.bind]; eauto.
  destruct (Joi.optional req_body "timestamp" _); cbn [Joi.bind]; eauto.
  pose proof (unknown_key_listed req_body k v Hk Hs) as Hin.
  destruct (Joi.unknown_keys req_body); [destruct Hin | eauto].
Qed.

(** C9: a body with a property that is not one of [employee_id],
    [latitude], [longitude], [gps_status] and [timestamp] fails
    validation: the response is 400 and the world is untouched, so the
    extra property is refused, not dropped. *)
Theorem unknown_property_rejected nos iso e (req_body : gmap string json) k v w :
  req_body !! k = Some v ->
  Joi.is_schema_key k = false ->
  exists err,
    respond (post_location nos iso e req_body) w
    = (Some {| status := 400; body := invalid err |}, w).
Proof.
  intros Hk Hs.
  destruct (validate_unknown_key nos iso req_body k v Hk Hs) as [err Herr].
  exists err. by apply post_invalid.
Qed.

Lemma unknown_property_rejected_witness :
  exists err,
    respond (post_location Sample.number_of_string Sample.isoDate Sample.quiet
               (<["accuracy" := JNum 5]> RollbackExample.req_body))
            RollbackExample.listening
    = (Some {| status := 400; body := invalid err |}, RollbackExample.listening).
Proof.
  apply (unknown_property_rejected Sample.number_of_string Sample.isoDate
           Sample.quiet (<["accuracy" := JNum 5]> RollbackExample.req_body)
           "accuracy" (JNum 5) RollbackExample.listening).
  - apply lookup_insert_eq.
  - reflexivity.
Defined.

Lemma validate_read_fields nos iso (b1 b2 : gmap string json) v1 v2 :
  delete "timestamp" b1 = delete "timestamp" b2 ->
  locationSchema_validate nos iso b1 = inr v1 ->
  locationSchema_validate nos iso b2 = inr v2 ->
  read_fields v1 = read_fields v2.
Proof.
  intros Hd H1 H2.
  assert (Hreq : forall (A : Type) key (rule : string -> json -> Joi.error + A),
             key <> "timestamp" ->
             Joi.required b1 key rule = Joi.required b2 key rule).
  { intros A key rule Hne. unfold Joi.required.
    rewrite <- (lookup_delete_ne b1 "timestamp" key) by congruence.
    rewrite <- (lookup_delete_ne b2 "timestamp" key) by congruence.
    by rewrite Hd. }
  unfold locationSchema_validate, Joi.validate in H1, H2.
  rewrite !Hreq in H1 by discriminate.
  destruct (Joi.required b2 "employee_id" _) as [|z]; [discriminate|].
  cbn [Joi.bind] in H1, H2.
  destruct (Joi.required b2 "latitude" _) as [|lat]; [discriminate|].
  cbn [Joi.bind] in H1, H2.
  destruct (Joi.required b2 "longitude" _) as [|lon]; [discriminate|].
  cbn [Joi.bind] in H1, H2.
  destruct (Joi.required b2 "gps_status" _) as [|st]; [discriminate|].
  cbn [Joi.bind] in H1, H2.
  destruct (Joi.optional b1 "timestamp" _) as [|t1]; [discriminate|].
  destruct (Joi.optional b2 "timestamp" _) as [|t2]; [discriminate|].
  cbn [Joi.bind] in H1, H2.
  destruct (Joi.unknown_keys b1); [|discriminate].
  destruct (Joi.unknown_keys b2); [|discriminate].
  injection H1 as <-. injection H2 as <-. reflexivity.
Qed.

(** C10: two valid reports that differ at most in [timestamp] (present
    or not, whatever accepted string it holds) are handled alike under
    the same surroundings: the same response, the same committed tables
    and the same frames.  The report's [timestamp] is read nowhere. *)
Theorem report_timestamp_ignored nos iso e (b1 b2 : gmap string json) v1 v2 w :
  delete "timestamp" b1 = delete "timestamp" b2 ->
  locationSchema_validate nos iso b1 = inr v1 ->
  locationSchema_validate nos iso b2 = inr v2 ->
  respond (post_location nos iso e b1) w = respond (post_location nos iso e b2) w.
Proof.
  intros Hd H1 H2.
  pose proof (validate_read_fields nos iso b1 b2 v1 v2 Hd H1 H2) as Hf.
  rewrite (post_valid _ _ _ _ _ _ H1), (post_valid _ _ _ _ _ _ H2).
  destruct v1, v2. unfold read_fields in Hf. cbn in Hf.
  injection Hf as -> -> -> ->. reflexivity.
Qed.

Lemma report_timestamp_ignored_witness :
  respond (post_location Sample.number_of_string Sample.isoDate Sample.quiet
             RollbackExample.req_body) RollbackExample.listening
  = respond (post_location Sample.number_of_string Sample.isoDate Sample.quiet
               TimestampExample.stamped) RollbackExample.listening.
Proof.
  apply (report_timestamp_ignored Sample.number_of_string Sample.isoDate
           Sample.quiet RollbackExample.req_body TimestampExample.stamped
           RollbackExample.value TimestampExample.stamped_value
           RollbackExample.listening).
  - symmetry. apply delete_insert_eq.
  - vm_compute. reflexivity.
  - vm_compute. reflexivity.
Defined.

(** ** The current-position table *)

Lemma upsert_shape new table :
  (~ In (live_employee_id new) (map live_employee_id table) /\
   SQL.upsert new table = table ++ [new]) \/
  (exists pre old post,
     table = pre ++ old :: post /\
     ~ In (live_employee_id new) (map live_employee_id pre) /\
     live_employee_id old = live_employee_id new /\
     SQL.upsert new table = pre ++ new :: post).
Proof.
  induction table as [|r rest IH]; cbn [SQL.upsert].
  - left. split; [intros []|reflexivity].
  - destruct (live_employee_id r =? live_employee_id new) eqn:Hk.
    + apply Z.eqb_eq in Hk. right. exists [], r, rest.
      repeat split; [intros []|exact Hk|].
      cbn. f_equal. destruct new; cbn in *. by subst.
    + apply Z.eqb_neq in Hk. destruct IH as [[Hn ->]|(pre & old & post & -> & Hn & Ho & ->)].
      * left. split; [|reflexivity]. cbn. intros [H|H]; [congruence|by apply Hn].
      * right. exists (r :: pre), old, post. repeat split; [|exact Ho].
        cbn. intros [H|H]; [congruence|by apply Hn].
Qed.

Lemma upsert_keys_NoDup new table :
  NoDup (map live_employee_id table) ->
  NoDup (map live_employee_id (SQL.upsert new table)).
Proof.
  intros Hnd.
  destruct (upsert_shape new table) as [[Hn ->]|(pre & old & post & -> & _ & Ho & ->)].
  - rewrite map_app. cbn. apply NoDup_app. repeat split; [exact Hnd| |apply NoDup_singleton].
    intros k Hk Hin. apply list_elem_of_In in Hk.
    apply list_elem_of_singleton in Hin. subst. by apply Hn.
  - rewrite map_app in *. cbn in *. by rewrite <- Ho.
Qed.

Lemma INT_Some n m : SQL.INT n = Some m -> m = n.
Proof. unfold SQL.INT. destruct (_ && _); congruence. Qed.

Lemma transaction_commits e value d d' :
  transaction e value d = Some d' ->
  exists lat lon,
    SQL.DECIMAL_10_6 (latitude value) = Some lat /\
    SQL.DECIMAL_10_6 (longitude value) = Some lon /\
    employee_live_location d' =
      SQL.upsert (live_row_of e value lat lon) (employee_live_location d) /\
    employee_location_history d' =
      employee_location_history d ++ [history_row_of e value lat lon].
Proof.
  unfold transaction, SQL.upsert_live, SQL.insert_history.
  destruct (fails e beginTransaction); [discriminate|].
  destruct (fails e query_upsert); [discriminate|].
  destruct (SQL.INT (employee_id value)) as [emp|] eqn:He; [|discriminate].
  apply INT_Some in He. subst emp.
  destruct (SQL.DECIMAL_10_6 (latitude value)) as [lat|]; [|discriminate].
  destruct (SQL.DECIMAL_10_6 (longitude value)) as [lon|]; [|discriminate].
  destruct (fails e query_history); [discriminate|].
  destruct (fails e commit); [discriminate|].
  intros [= <-]. exists lat, lon. repeat split.
Qed.

Lemma get_locations_world e w : snd (respond (get_locations e) w) = w.
Proof.
  unfold respond, get_locations, try_catch, bind, pool_query, json_response, ret.
  by destruct (fails e query_select).
Qed.

Lemma get_history_world select e id lim w :
  snd (respond (get_history select e id lim) w) = w.
Proof.
  unfold respond, get_history, try_catch, bind, pool_query, json_response, ret.
  destruct (JS.not _); [reflexivity|].
  destruct (fails e query_select); [reflexivity|].
  by destruct (select_history _ _ _ _).
Qed.

Lemma step_keys_NoDup w w' :
  step w w' -> NoDup (live_keys (committed w)) -> NoDup (live_keys (committed w')).
Proof.
  intros Hs Hnd. destruct Hs.
  - destruct (post_committed nos iso e req_body w)
      as [->|(value & d & _ & Ht & ->)]; [exact Hnd|].
    destruct (transaction_commits _ _ _ _ Ht) as (lat & lon & _ & _ & Hl & _).
    unfold live_keys. rewrite Hl. by apply upsert_keys_NoDup.
  - by rewrite get_locations_world.
  - by rewrite get_history_world.
  - unfold on_connection, socket_send. by destruct (send_throws e c).
  - exact Hnd.
Qed.

Lemma reachable_keys_NoDup w : reachable w -> NoDup (live_keys (committed w)).
Proof.
  induction 1 as [|w w' _ IH Hs].
  - constructor.
  - by apply (step_keys_NoDup w w').
Qed.

(** C8: in every world the server can reach, no two rows of the
    current-position table have the same [employee_id]; and a request
    that is answered with 200 either appends a row for a worker that had
    none, or puts new [latitude], [longitude], [gps_status] and
    [last_update] in that worker's row, all four from this one report,
    leaving every other row as it was. *)
Theorem one_current_row_per_worker w :
  reachable w ->
  NoDup (live_keys (committed w)) /\
  forall nos iso e req_body data w',
    respond (post_location nos iso e req_body) w
    = (Some {| status := 200; body := data |}, w') ->
    exists value new,
      locationSchema_validate nos iso req_body = inr value /\
      live_employee_id new = employee_id value /\
      SQL.DECIMAL_10_6 (latitude value) = Some (live_latitude new) /\
      SQL.DECIMAL_10_6 (longitude value) = Some (live_longitude new) /\
      live_gps_status new = gps_status value /\
      live_last_update new = NOW_upsert e /\
      ((~ In (employee_id value) (live_keys (committed w)) /\
        employee_live_location (committed w')
        = employee_live_location (committed w) ++ [new]) \/
       (exists pre old post,
          employee_live_location (committed w) = pre ++ old :: post /\
          live_employee_id old = employee_id value /\
          employee_live_location (committed w') = pre ++ new :: post)) /\
      NoDup (live_keys (committed w')).
Proof.
  intros Hr. pose proof (reachable_keys_NoDup w Hr) as Hnd.
  split; [exact Hnd|].
  intros nos iso e req_body data w' Hpost.
  destruct (post_success _ _ _ _ _ _ _ Hpost) as (value & d & Hv & Ht & _ & ->).
  destruct (transaction_commits _ _ _ _ Ht) as (lat & lon & Hlat & Hlon & Hl & _).
  exists value, (live_row_of e value lat lon). cbn [committed].
  repeat split; try assumption.
  - rewrite Hl.
    destruct (upsert_shape (live_row_of e value lat lon)
                (employee_live_location (committed w)))
      as [[Hn ->]|(pre & old & post & Hw & _ & Ho & ->)].
    + left. split; [exact Hn|reflexivity].
    + right. exists pre, old, post. auto.
  - unfold live_keys. rewrite Hl. by apply upsert_keys_NoDup.
Qed.

Lemma after_first_report_reachable : reachable UpsertExample.after_first_report.
Proof.
  apply (reachable_step initial_world); [apply reachable_initial|].
  exact (step_post Sample.number_of_string Sample.isoDate Sample.quiet
           RollbackExample.req_body initial_world).
Qed.

Lemma one_current_row_per_worker_witness :
  NoDup (live_keys (committed UpsertExample.after_first_report)) /\
  forall nos iso e req_body data w',
    respond (post_location nos iso e req_body) UpsertExample.after_first_report
    = (Some {| status := 200; body := data |}, w') ->
    exists value new,
      locationSchema_validate nos iso req_body = inr value /\
      live_employee_id new = employee_id value /\
      SQL.DECIMAL_10_6 (latitude value) = Some (live_latitude new) /\
      SQL.DECIMAL_10_6 (longitude value) = Some (live_longitude new) /\
      live_gps_status new = gps_status value /\
      live_last_update new = NOW_upsert e /\
      ((~ In (employee_id value) (live_keys (committed UpsertExample.after_first_report)) /\
        employee_live_location (committed w')
        = employee_live_location (committed UpsertExample.after_first_report) ++ [new]) \/
       (exists pre old post,
          employee_live_location (committed UpsertExample.after_first_report)
          = pre ++ old :: post /\
          live_employee_id old = employee_id value /\
          employee_live_location (committed w') = pre ++ new :: post)) /\
      NoDup (live_keys (committed w')).
Proof.
  apply (one_current_row_per_worker UpsertExample.after_first_report).
  exact after_first_report_reachable.
Defined.

(** C7 (as amended): for every request answered with 200, the
    current-position row of the worker carries the database clock as
    read by the first statement and the new history row carries the
    database clock as read by the second statement; the object sent to
    the sockets is the object returned in the response, and it is built
    from the validated report (numbers as submitted) with [last_update]
    read from the application clock after the commit. *)
Theorem ingestion_clocks_and_payload nos iso e req_body data w w' :
  respond (post_location nos iso e req_body) w
  = (Some {| status := 200; body := data |}, w') ->
  exists value l h obj,
    locationSchema_validate nos iso req_body = inr value /\
    In l (employee_live_location (committed w')) /\
    live_employee_id l = employee_id value /\
    live_last_update l = NOW_upsert e /\
    employee_location_history (committed w')
    = employee_location_history (committed w) ++ [h] /\
    hist_employee_id h = employee_id value /\
    hist_recorded_at h = NOW_history e /\
    data = updated obj /\
    sent w' = sent w ++ delivered e (location obj) (wss_clients w) /\
    payload_employee_id obj = employee_id value /\
    payload_latitude obj = latitude value /\
    payload_longitude obj = longitude value /\
    payload_gps_status obj = gps_status value /\
    payload_last_update obj = Date_now e.
Proof.
  intros Hpost.
  destruct (post_success _ _ _ _ _ _ _ Hpost) as (value & d & Hv & Ht & -> & ->).
  destruct (transaction_commits _ _ _ _ Ht) as (lat & lon & _ & _ & Hl & Hh).
  exists value, (live_row_of e value lat lon), (history_row_of e value lat lon),
    (payload_of e value).
  cbn [committed sent]. repeat split; try assumption.
  rewrite Hl.
  destruct (upsert_shape (live_row_of e value lat lon)
              (employee_live_location (committed w)))
    as [[_ ->]|(pre & old & post & _ & _ & _ & ->)];
    apply in_or_app; right; by left.
Qed.

Lemma ingestion_clocks_and_payload_witness :
  exists value l h obj,
    locationSchema_validate Sample.number_of_string Sample.isoDate
      RollbackExample.req_body = inr value /\
    In l (employee_live_location (committed UpsertExample.after_first_report)) /\
    live_employee_id l = employee_id value /\
    live_last_update l = NOW_upsert Sample.quiet /\
    employee_location_history (committed UpsertExample.after_first_report)
    = employee_location_history (committed initial_world) ++ [h] /\
    hist_employee_id h = employee_id value /\
    hist_recorded_at h = NOW_history Sample.quiet /\
    updated (payload_of Sample.quiet RollbackExample.value) = updated obj /\
    sent UpsertExample.after_first_report
    = sent initial_world ++ delivered Sample.quiet (location obj) (wss_clients initial_world) /\
    payload_employee_id obj = employee_id value /\
    payload_latitude obj = latitude value /\
    payload_longitude obj = longitude value /\
    payload_gps_status obj = gps_status value /\
    payload_last_update obj = Date_now Sample.quiet.
Proof.
  apply (ingestion_clocks_and_payload Sample.number_of_string Sample.isoDate
           Sample.quiet RollbackExample.req_body
           (updated (payload_of Sample.quiet RollbackExample.value))
           initial_world UpsertExample.after_first_report).
  vm_compute. reflexivity.
Defined.

(** C7, as stated, fails: with a clock tick between the two statements
    the two rows carry different timestamps, and the response carries
    the submitted latitude and the application clock, not the committed
    row's rounded latitude and [last_update]. *)
Lemma writes_and_payload_read_separate_clocks :
  exists l h obj w',
    Sample.post ClockExample.tick_between ClockExample.fine_grained initial_world
    = (Some {| status := 200; body := updated obj |}, w') /\
    employee_live_location (committed w') = [l] /\
    employee_location_history (committed w') = [h] /\
    live_last_update l <> hist_recorded_at h /\
    ~ (payload_latitude obj == SQL.decimal_value (live_latitude l))%Q /\
    payload_last_update obj <> 1000 * live_last_update l.
Proof.
  do 4 eexists. split; [vm_compute; reflexivity|].
  split; [reflexivity|]. split; [reflexivity|].
  cbn. repeat split; try discriminate.
Qed.

(** ** The history query *)

Lemma insert_desc_perm r l : Permutation (SQL.insert_desc r l) (r :: l).
Proof.
  induction l as [|x t IH]; cbn; [reflexivity|].
  destruct (_ <? _); [reflexivity|].
  rewrite IH. apply perm_swap.
Qed.

Lemma sort_desc_perm l : Permutation (SQL.sort_desc l) l.
Proof.
  induction l as [|x t IH]; cbn; [reflexivity|].
  rewrite insert_desc_perm. by constructor.
Qed.

Lemma insert_desc_sorted r l :
  StronglySorted SQL.newer_or_equal l ->
  StronglySorted SQL.newer_or_equal (SQL.insert_desc r l).
Proof.
  induction 1 as [|x t Hs IH Hx]; cbn.
  - repeat constructor.
  - destruct (hist_recorded_at x <? hist_recorded_at r) eqn:Hc.
    + apply Z.ltb_lt in Hc. constructor; [by constructor|].
      constructor; [unfold SQL.newer_or_equal; lia|].
      eapply Forall_impl; [exact Hx|].
      unfold SQL.newer_or_equal. intros y Hy. lia.
    + apply Z.ltb_ge in Hc. constructor; [exact IH|].
      eapply Permutation_Forall; [symmetry; apply insert_desc_perm|].
      constructor; [exact Hc|exact Hx].
Qed.

Lemma sort_desc_sorted l : StronglySorted SQL.newer_or_equal (SQL.sort_desc l).
Proof.
  induction l as [|x t IH]; cbn; [constructor|by apply insert_desc_sorted].
Qed.

Lemma scan_backward_admissible : SQL.admissible SQL.scan_backward.
Proof.
  intros d emp limit. eexists. split; [apply sort_desc_perm|].
  split; [apply sort_desc_sorted|reflexivity].
Qed.

Lemma scan_forward_admissible : SQL.admissible SQL.scan_forward.
Proof.
  intros d emp limit.
  exists (SQL.sort_desc (rev (List.filter (SQL.where_employee emp)
                                (employee_location_history d)))).
  split; [|split; [apply sort_desc_sorted|reflexivity]].
  rewrite sort_desc_perm. symmetry. apply Permutation_rev.
Qed.

Lemma answer_length d emp limit rows :
  SQL.history_answer d emp limit rows -> (length rows <= limit)%nat.
Proof. intros (ordered & _ & _ & ->). apply firstn_le_length. Qed.

(** The history handler, case by case. *)
Lemma get_history_cases select e id lim w :
  respond (get_history select e id lim) w =
    (Some
       (if JS.not (JS.Number (JS.Str id)) then
          {| status := 400; body := failure "Invalid employee_id" |}
        else if fails e query_select then
          {| status := 500; body := failure "Database error" |}
        else
          match select_history select (JS.Number (JS.Str id)) (history_limit lim)
                  (committed w) with
          | Some rows => {| status := 200; body := history_rows rows |}
          | None => {| status := 500; body := failure "Database error" |}
          end),
     w).
Proof.
  unfold respond, get_history, try_catch, bind, pool_query, json_response, ret.
  destruct (JS.not _); [reflexivity|].
  destruct (fails e query_select); [reflexivity|].
  by destruct (select_history _ _ _ _).
Qed.

Lemma history_limit_upper lim :
  match history_limit lim with
  | JS.Fin x => (x <= 5000)%Q
  | JS.PosInf => False
  | _ => True
  end.
Proof.
  unfold history_limit.
  destruct (JS.Number _) as [| | |x]; cbn; try exact I.
  - apply Qle_bool_iff. reflexivity.
  - destruct (Qle_bool x 5000) eqn:Hx.
    + by apply Qle_bool_iff.
    + apply Qle_bool_iff. reflexivity.
Qed.

Lemma limit_literal_upper lim n :
  SQL.limit_literal (history_limit lim) = Some n -> (n <= 5000)%nat.
Proof.
  pose proof (history_limit_upper lim) as Hu.
  unfold SQL.limit_literal, JS.as_integer.
  destruct (history_limit lim) as [| | |x]; try discriminate.
  destruct (_ =? 0) eqn:Hm; [|discriminate].
  destruct (0 <=? _) eqn:Hz; [|discriminate].
  intros [= <-]. apply Z.eqb_eq in Hm. apply Z.leb_le in Hz.
  unfold Qle in Hu. cbn in Hu.
  destruct x as [num den]. cbn in *.
  apply Z.mod_divide in Hm; [|lia]. destruct Hm as [k Hk].
  subst num. rewrite Z.div_mul in * by lia. nia.
Qed.

(** C5 (as amended): the limit handed to the store is
    [Math.min(Number(limit || 500), 5000)]: it is 500 when the request
    gives no limit (or an empty one), it is never above 5000, and a
    history response never carries more than 5000 rows, whatever limit
    was asked for.  Nothing bounds it from below. *)
Theorem history_limit_default_and_cap :
  history_limit JS.Undefined = JS.Fin 500 /\
  history_limit (JS.Str "") = JS.Fin 500 /\
  history_limit (JS.Str "999999") = JS.Fin 5000 /\
  (forall lim,
     match history_limit lim with
     | JS.Fin x => (x <= 5000)%Q
     | JS.PosInf => False
     | _ => True
     end) /\
  (forall select e id lim w rows w',
     SQL.admissible select ->
     respond (get_history select e id lim) w
     = (Some {| status := 200; body := history_rows rows |}, w') ->
     (length rows <= 5000)%nat).
Proof.
  split; [reflexivity|]. split; [reflexivity|]. split; [reflexivity|].
  split; [exact history_limit_upper|].
  intros select e id lim w rows w' Hadm.
  rewrite get_history_cases.
  destruct (JS.not _); [intros [=]|].
  destruct (fails e query_select); [intros [=]|].
  unfold select_history.
  destruct (SQL.literal _) as [emp|]; [|intros [=]].
  destruct (SQL.limit_literal _) as [n|] eqn:Hn; [|intros [=]].
  intros [= <- _].
  pose proof (answer_length _ _ _ _ (Hadm (committed w) emp n)).
  pose proof (limit_literal_upper _ _ Hn). lia.
Qed.

Lemma history_limit_default_and_cap_witness :
  SQL.admissible SQL.scan_backward /\
  respond (get_history SQL.scan_backward Sample.quiet "7" (JS.Str "999999"))
    UpsertExample.after_first_report
  = (Some {| status := 200;
             body := history_rows
                       (SQL.scan_backward (committed UpsertExample.after_first_report)
                          7%Q 5000%nat) |},
     UpsertExample.after_first_report) /\
  (length (SQL.scan_backward (committed UpsertExample.after_first_report) 7%Q 5000%nat)
   <= 5000)%nat.
Proof.
  split; [exact scan_backward_admissible|].
  split; [vm_compute; reflexivity|].
  apply (proj2 (proj2 (proj2 (proj2 history_limit_default_and_cap)))
           SQL.scan_backward Sample.quiet "7" (JS.Str "999999")
           UpsertExample.after_first_report
           (SQL.scan_backward (committed UpsertExample.after_first_report) 7%Q 5000%nat)
           UpsertExample.after_first_report).
  - exact scan_backward_admissible.
  - vm_compute. reflexivity.
Defined.

(** C5, as stated, fails: a limit of [0] reaches the store as 0 and the
    response is empty although the worker has history; a negative limit
    and a non-numeric one reach the statement as they are, and the
    statement fails. *)
Lemma history_limit_has_no_lower_bound :
  history_limit (JS.Str "0") = JS.Fin 0 /\
  SQL.limit_literal (history_limit (JS.Str "0")) = Some 0%nat /\
  history_limit (JS.Str "-3") = JS.Fin (-3) /\
  history_limit (JS.Str "abc") = JS.NaN /\
  employee_location_history (committed UpsertExample.after_first_report) <> [] /\
  fst (respond (get_history SQL.scan_backward Sample.quiet "7" (JS.Str "0"))
         UpsertExample.after_first_report)
  = Some {| status := 200; body := history_rows [] |} /\
  fst (respond (get_history SQL.scan_backward Sample.quiet "7" (JS.Str "-3"))
         UpsertExample.after_first_report)
  = Some {| status := 500; body := failure "Database error" |}.
Proof. vm_compute. repeat split; discriminate. Qed.

(** ** The guard on [employee_id] *)

(** What the guard does refuse: an [employee_id] that [Number] turns
    into [NaN] or zero is answered with 400 without a query. *)
Lemma history_guard_rejects select e id lim w :
  JS.not (JS.Number (JS.Str id)) = true ->
  respond (get_history select e id lim) w
  = (Some {| status := 400; body := failure "Invalid employee_id" |}, w).
Proof. intros H. rewrite get_history_cases, H. reflexivity. Qed.

(** C6, at the failing inputs: [-5] and [1.5] pass the guard
    [!employee_id]; the statement runs with them (the response is the
    store's answer, 200, or 500 when the store is down), where the claim
    asks for 400 and no query. *)
Theorem history_guard_misses_negative_and_fractional_ids select w :
  respond (get_history select Sample.quiet "-5" JS.Undefined) w
  = (Some {| status := 200;
             body := history_rows (select (committed w) (-5 # 1) 500%nat) |}, w) /\
  respond (get_history select Sample.quiet "1.5" JS.Undefined) w
  = (Some {| status := 200;
             body := history_rows (select (committed w) (15 # 10) 500%nat) |}, w) /\
  respond (get_history select store_down "-5" JS.Undefined) w
  = (Some {| status := 500; body := failure "Database error" |}, w) /\
  respond (get_history select Sample.quiet "0" JS.Undefined) w
  = (Some {| status := 400; body := failure "Invalid employee_id" |}, w) /\
  respond (get_history select Sample.quiet "abc" JS.Undefined) w
  = (Some {| status := 400; body := failure "Invalid employee_id" |}, w).
Proof. rewrite !get_history_cases. repeat split. Qed.

(** ** Reading back an accepted report *)

Lemma upsert_select new table :
  NoDup (map live_employee_id table) ->
  List.filter (fun r => live_employee_id r =? live_employee_id new)
    (SQL.upsert new table) = [new].
Proof.
  intros Hnd.
  assert (Hnone : forall l, ~ In (live_employee_id new) (map live_employee_id l) ->
            List.filter (fun r => live_employee_id r =? live_employee_id new) l = []).
  { induction l as [|r l IH]; cbn; [reflexivity|]. intros Hn.
    destruct (live_employee_id r =? live_employee_id new) eqn:Hk.
    - apply Z.eqb_eq in Hk. exfalso. apply Hn. by left.
    - apply IH. intros H. apply Hn. by right. }
  destruct (upsert_shape new table) as [[Hn ->]|(pre & old & post & -> & Hn & Ho & ->)].
  - rewrite List.filter_app, (Hnone _ Hn). cbn. by rewrite Z.eqb_refl.
  - rewrite List.filter_app, (Hnone _ Hn). cbn. rewrite Z.eqb_refl.
    rewrite Hnone; [reflexivity|].
    rewrite map_app in Hnd. cbn in Hnd.
    apply NoDup_app in Hnd as (_ & _ & Hnd).
    apply NoDup_cons in Hnd as [Hnd _].
    rewrite <- Ho. intros H. apply Hnd. by apply list_elem_of_In.
Qed.

Lemma as_integer_value q z : JS.as_integer q = Some z -> (q == inject_Z z)%Q.
Proof.
  unfold JS.as_integer. destruct (_ =? 0) eqn:Hm; [|discriminate].
  intros [= <-]. apply Z.eqb_eq in Hm.
  apply Z.mod_divide in Hm; [|lia]. destruct Hm as [k Hk].
  destruct q as [num den]. cbn in *. subst num.
  unfold Qeq. cbn. rewrite Z.div_mul by lia. lia.
Qed.

Lemma validate_employee_id_positive nos iso req_body value :
  locationSchema_validate nos iso req_body = inr value ->
  1 <= employee_id value.
Proof.
  unfold locationSchema_validate, Joi.validate. unfold Joi.required at 1.
  destruct (req_body !! "employee_id") as [v|]; [|discriminate].
  destruct (Joi.number nos "employee_id" v) as [|q]; [discriminate|].
  cbn [Joi.bind]. unfold Joi.integer.
  destruct (JS.as_integer q) as [z|] eqn:Hz; [|discriminate].
  cbn [Joi.bind]. unfold Joi.min.
  destruct (Qle_bool (inject_Z 1) q) eqn:Hq; [|discriminate].
  cbn [Joi.bind].
  destruct (Joi.required req_body "latitude" _); [discriminate|]. cbn [Joi.bind].
  destruct (Joi.required req_body "longitude" _); [discriminate|]. cbn [Joi.bind].
  destruct (Joi.required req_body "gps_status" _); [discriminate|]. cbn [Joi.bind].
  destruct (Joi.optional req_body "timestamp" _); [discriminate|]. cbn [Joi.bind].
  destruct (Joi.unknown_keys req_body); [|discriminate].
  intros [= <-]. cbn.
  apply Qle_bool_iff in Hq. rewrite (as_integer_value _ _ Hz) in Hq.
  by rewrite Zle_Qle.
Qed.

Lemma where_employee_iff q n r :
  (q == inject_Z n)%Q ->
  SQL.where_employee q r = true <-> hist_employee_id r = n.
Proof.
  intros Hq. unfold SQL.where_employee. rewrite Qeq_bool_iff, Hq.
  split; [apply inject_Z_injective|by intros ->].
Qed.

Lemma newest_row_first ordered olds h :
  Permutation ordered (olds ++ [h]) ->
  StronglySorted SQL.newer_or_equal ordered ->
  (forall o, In o olds -> hist_recorded_at o < hist_recorded_at h) ->
  exists rest, ordered = h :: rest.
Proof.
  intros Hp Hs Hlt. destruct ordered as [|x rest].
  - apply Permutation_nil in Hp. by destruct olds.
  - exists rest. f_equal.
    apply StronglySorted_inv in Hs as [_ Hx].
    assert (Hin : In x (olds ++ [h])) by (eapply Permutation_in; [exact Hp|by left]).
    apply in_app_or in Hin as [Hin|[Hin|[]]]; [|by symmetry].
    exfalso. specialize (Hlt x Hin).
    assert (Hh : In h (x :: rest)).
    { eapply Permutation_in; [symmetry; exact Hp|]. apply in_or_app. right. by left. }
    destruct Hh as [Hh|Hh]; [subst; lia|].
    rewrite Forall_forall in Hx. apply list_elem_of_In in Hh.
    specialize (Hx h Hh). unfold SQL.newer_or_equal in Hx. lia.
Qed.

Lemma DECIMAL_10_6_Some q m : SQL.DECIMAL_10_6 q = Some m -> m = SQL.round_scaled 6 q.
Proof. unfold SQL.DECIMAL_10_6. destruct (_ <=? _); congruence. Qed.

Lemma guard_passes q n : (q == inject_Z n)%Q -> 1 <= n -> JS.not (JS.Fin q) = false.
Proof.
  intros Hq Hn. unfold JS.not, JS.truthy, JS.is_zero.
  destruct (Qnum q =? 0) eqn:Hz; [|reflexivity].
  apply Z.eqb_eq in Hz. unfold Qeq in Hq. cbn in Hq. nia.
Qed.

Lemma after_on_reachable : reachable ReadBackExample.after_on.
Proof.
  apply (reachable_step initial_world); [apply reachable_initial|].
  exact (step_post Sample.number_of_string Sample.isoDate Sample.quiet
           ReadBackExample.on_report initial_world).
Qed.

(** C2 (as amended): after a request answered with 200 in a reachable
    world, the current-positions read has exactly one row for the
    worker, holding the submitted latitude and longitude rounded to six
    fractional digits, the submitted status and the upsert's clock; and
    a history read for that worker with an effective limit of at least 1
    has the new record first, provided the history insert's clock is
    later than [recorded_at] of every earlier record of the worker. *)
Theorem accepted_report_is_read_back nos iso select e req_body data w w' :
  reachable w ->
  SQL.admissible select ->
  respond (post_location nos iso e req_body) w
  = (Some {| status := 200; body := data |}, w') ->
  exists value lat lon,
    locationSchema_validate nos iso req_body = inr value /\
    lat = SQL.round_scaled 6 (latitude value) /\
    lon = SQL.round_scaled 6 (longitude value) /\
    (forall e',
       fails e' query_select = false ->
       exists rows,
         respond (get_locations e') w'
         = (Some {| status := 200; body := live_rows rows |}, w') /\
         List.filter (fun r => live_employee_id r =? employee_id value) rows
         = [{| live_employee_id := employee_id value;
               live_latitude := lat; live_longitude := lon;
               live_gps_status := gps_status value;
               live_last_update := NOW_upsert e |}]) /\
    (forall e' id lim q n,
       fails e' query_select = false ->
       JS.Number (JS.Str id) = JS.Fin q ->
       (q == inject_Z (employee_id value))%Q ->
       SQL.limit_literal (history_limit lim) = Some n ->
       (1 <= n)%nat ->
       (forall old,
          In old (employee_location_history (committed w)) ->
          hist_employee_id old = employee_id value ->
          hist_recorded_at old < NOW_history e) ->
       exists rest,
         respond (get_history select e' id lim) w'
         = (Some {| status := 200;
                    body := history_rows
                      ({| hist_employee_id := employee_id value;
                          hist_latitude := lat; hist_longitude := lon;
                          hist_gps_status := gps_status value;
                          hist_recorded_at := NOW_history e |} :: rest) |}, w')).
Proof.
  intros Hr Hadm Hpost.
  destruct (post_success _ _ _ _ _ _ _ Hpost) as (value & d & Hv & Ht & _ & ->).
  destruct (transaction_commits _ _ _ _ Ht) as (lat & lon & Hlat & Hlon & Hl & Hh).
  apply DECIMAL_10_6_Some in Hlat, Hlon.
  exists value, lat, lon. repeat split; try assumption.
  - intros e' He'. exists (employee_live_location d). split.
    + unfold respond, get_locations, try_catch, bind, pool_query, json_response, ret.
      rewrite He'. reflexivity.
    + rewrite Hl. apply (upsert_select (live_row_of e value lat lon)).
      apply (reachable_keys_NoDup w Hr).
  - intros e' id lim q n He' Hid Hq Hn Hn1 Hold.
    rewrite get_history_cases, Hid.
    rewrite (guard_passes q (employee_id value) Hq
               (validate_employee_id_positive _ _ _ _ Hv)).
    rewrite He'. unfold select_history. cbn [SQL.literal committed]. rewrite Hn.
    destruct (Hadm d q n) as (ordered & Hp & Hs & ->).
    rewrite Hh, List.filter_app in Hp. cbn [List.filter] in Hp.
    assert (Hw : SQL.where_employee q (history_row_of e value lat lon) = true)
      by (by apply (where_employee_iff q (employee_id value))).
    rewrite Hw in Hp.
    destruct (newest_row_first ordered _ _ Hp Hs) as [rest ->].
    + intros o Ho. apply filter_In in Ho as [Ho Hwo].
      apply (where_employee_iff q (employee_id value)) in Hwo; [|exact Hq].
      by apply Hold.
    + destruct n as [|n]; [lia|]. cbn [firstn]. by eexists.
Qed.

Lemma accepted_report_is_read_back_witness :
  (exists rows,
     respond (get_locations Sample.quiet) ReadBackExample.after_fine_off
     = (Some {| status := 200; body := live_rows rows |},
        ReadBackExample.after_fine_off) /\
     List.filter (fun r => live_employee_id r =? 7) rows
     = [{| live_employee_id := 7;
           live_latitude := 12345679; live_longitude := 77594600;
           live_gps_status := Off; live_last_update := 1700000060 |}]) /\
  (exists rest,
     respond (get_history SQL.scan_forward Sample.quiet "7" (JS.Str "10"))
       ReadBackExample.after_fine_off
     = (Some {| status := 200;
                body := history_rows
                  ({| hist_employee_id := 7;
                      hist_latitude := 12345679; hist_longitude := 77594600;
                      hist_gps_status := Off;
                      hist_recorded_at := 1700000060 |} :: rest) |},
        ReadBackExample.after_fine_off)).
Proof.
  destruct (accepted_report_is_read_back Sample.number_of_string Sample.isoDate
              SQL.scan_forward ReadBackExample.later ReadBackExample.fine_off
              (updated (payload_of ReadBackExample.later
                          ReadBackExample.fine_off_value))
              ReadBackExample.after_on ReadBackExample.after_fine_off)
    as (value & lat & lon & Hv & Hlat & Hlon & Hcur & Hhist).
  - exact after_on_reachable.
  - exact scan_forward_admissible.
  - vm_compute. reflexivity.
  - assert (Hvalue : value = ReadBackExample.fine_off_value).
    { assert (Hc : locationSchema_validate Sample.number_of_string Sample.isoDate
                     ReadBackExample.fine_off
                   = inr ReadBackExample.fine_off_value)
        by (vm_compute; reflexivity).
      rewrite Hc in Hv. by injection Hv. }
    subst value lat lon. split.
    + destruct (Hcur Sample.quiet eq_refl) as (rows & Hrows & Hfilter).
      exists rows. split; [exact Hrows|exact Hfilter].
    + destruct (Hhist Sample.quiet "7" (JS.Str "10") (inject_Z 7) 10%nat)
        as (rest & Hrest).
      * reflexivity.
      * vm_compute. reflexivity.
      * reflexivity.
      * vm_compute. reflexivity.
      * lia.
      * intros old Hin _. vm_compute in Hin.
        destruct Hin as [<-|[]]. reflexivity.
      * exists rest. exact Hrest.
Defined.

(** C2, as stated, fails twice.  A latitude with more than six
    fractional digits is accepted and read back rounded.  And when the
    database clock has been set back between two accepted reports of a
    worker, the history read lists the earlier report first, whichever
    order the store gives to equal timestamps. *)
Lemma read_back_differs_from_submission :
  (exists l,
     fst (Sample.post Sample.quiet ClockExample.fine_grained initial_world)
     = Some {| status := 200;
               body := updated (payload_of Sample.quiet
                          {| employee_id := 7; latitude := 123456789 # 10000000;
                             longitude := 775946 # 10000; gps_status := On;
                             timestamp := None |}) |} /\
     fst (respond (get_locations Sample.quiet) ReadBackExample.after_fine_grained)
     = Some {| status := 200; body := live_rows [l] |} /\
     ~ (SQL.decimal_value (live_latitude l) == 123456789 # 10000000)%Q) /\
  status <$> fst (Sample.post Sample.quiet ReadBackExample.on_report initial_world)
  = Some 200 /\
  status <$> fst (Sample.post ReadBackExample.set_back ReadBackExample.off_report
                    ReadBackExample.after_on)
  = Some 200 /\
  (forall select,
     SQL.admissible select ->
     exists first rest,
       fst (respond (get_history select Sample.quiet "7" (JS.Str "10"))
              ReadBackExample.after_set_back)
       = Some {| status := 200; body := history_rows (first :: rest) |} /\
       hist_gps_status first = On).
Proof.
  split; [|split; [vm_compute; reflexivity|split; [vm_compute; reflexivity|]]].
  - eexists. split; [vm_compute; reflexivity|].
    split; [vm_compute; reflexivity|]. cbn. discriminate.
  - intros select Hadm. rewrite get_history_cases.
    assert (Hid : JS.Number (JS.Str "7") = JS.Fin (inject_Z 7))
      by (vm_compute; reflexivity).
    rewrite Hid.
    change (JS.not (JS.Fin (inject_Z 7))) with false.
    change (fails Sample.quiet query_select) with false.
    unfold select_history. cbn [SQL.literal].
    assert (Hn : SQL.limit_literal (history_limit (JS.Str "10")) = Some 10%nat)
      by (vm_compute; reflexivity).
    rewrite Hn.
    destruct (Hadm (committed ReadBackExample.after_set_back) (inject_Z 7) 10%nat)
      as (ordered & Hp & Hs & ->).
    assert (Hrows : List.filter (SQL.where_employee (inject_Z 7))
                      (employee_location_history
                         (committed ReadBackExample.after_set_back))
                    = [ {| hist_employee_id := 7; hist_latitude := 12971600;
                           hist_longitude := 77594600; hist_gps_status := On;
                           hist_recorded_at := 1700000000 |};
                        {| hist_employee_id := 7; hist_latitude := 12971600;
                           hist_longitude := 77594600; hist_gps_status := Off;
                           hist_recorded_at := 1699999940 |} ])
      by (vm_compute; reflexivity).
    rewrite Hrows in Hp. symmetry in Hp.
    apply Permutation_length_2_inv in Hp as [->| ->].
    + do 2 eexists. split; reflexivity.
    + exfalso. apply StronglySorted_inv in Hs as [_ Hs].
      apply Forall_cons in Hs as [Hs _].
      unfold SQL.newer_or_equal in Hs. cbn in Hs. lia.
Qed.


(** A coordinate with at most six fractional digits is stored as it is:
    for such reports the values read back are the values submitted. *)
Lemma round_scaled_exact q :
  (Qnum q * 10 ^ 6) mod Zpos (Qden q) = 0 ->
  (SQL.decimal_value (SQL.round_scaled 6 q) == q)%Q.
Proof.
  intros Hm. apply Z.mod_divide in Hm; [|lia]. destruct Hm as [k Hk].
  unfold SQL.round_scaled, SQL.decimal_value, Qeq. cbn [Qnum Qden].
  rewrite Hk.
  assert (Hr : (2 * Z.abs (k * Z.pos (Qden q)) + Z.pos (Qden q)) / (2 * Z.pos (Qden q))
               = Z.abs k).
  { rewrite Z.abs_mul, (Z.abs_eq (Z.pos (Qden q))) by lia.
    symmetry. apply (Z.div_unique _ _ _ (Z.pos (Qden q))); lia. }
  rewrite Hr, Z.sgn_mul, (Z.sgn_pos (Z.pos (Qden q))) by lia.
  rewrite Z.mul_1_r. pose proof (Z.abs_sgn k) as Hs.
  change (Z.pos 1000000) with (10 ^ 6). nia.
Qed.

(** * Further properties of the code *)

(** ** The schema, further properties *)

Lemma filter_nil_forall {A : Type} (f : A -> bool) (l : list A) :
  List.filter f l = [] <-> forall x, In x l -> f x = false.
Proof.
  induction l as [|a l IH]; cbn.
  - split; [intros _ x []|reflexivity].
  - destruct (f a) eqn:Ha.
    + split; [discriminate|]. intros H. rewrite (H a) in Ha; [discriminate|by left].
    + rewrite IH. split.
      * intros H x [<-|Hx]; [exact Ha|by apply H].
      * intros H x Hx. apply H. by right.
Qed.

Lemma unknown_keys_nil (req_body : gmap string json) :
  Joi.unknown_keys req_body = [] <->
  forall k, is_Some (req_body !! k) -> Joi.is_schema_key k = true.
Proof.
  unfold Joi.unknown_keys. rewrite filter_nil_forall. split.
  - intros H k [v Hk].
    assert (Hin : In k (map fst (map_to_list req_body))).
    { apply (in_map fst _ (k, v)). apply list_elem_of_In.
      by apply elem_of_map_to_list. }
    specialize (H k Hin). by destruct (Joi.is_schema_key k).
  - intros H k Hk. apply in_map_iff in Hk as ([k' v] & <- & Hin).
    apply list_elem_of_In, elem_of_map_to_list in Hin. cbn [fst].
    rewrite H; [reflexivity|by exists v].
Qed.

(** What an accepted body looked like, field by field. *)
Lemma validate_inversion nos iso (req_body : gmap string json) value :
  locationSchema_validate nos iso req_body = inr value ->
  (exists v q,
     req_body !! "employee_id" = Some v /\
     Joi.number nos "employee_id" v = inr q /\
     JS.as_integer q = Some (employee_id value) /\
     Qle_bool (inject_Z 1) q = true) /\
  (exists v,
     req_body !! "latitude" = Some v /\
     Joi.number nos "latitude" v = inr (latitude value) /\
     Qle_bool (inject_Z (-90)) (latitude value) = true /\
     Qle_bool (latitude value) (inject_Z 90) = true) /\
  (exists v,
     req_body !! "longitude" = Some v /\
     Joi.number nos "longitude" v = inr (longitude value) /\
     Qle_bool (inject_Z (-180)) (longitude value) = true /\
     Qle_bool (longitude value) (inject_Z 180) = true) /\
  (exists v,
     req_body !! "gps_status" = Some v /\
     Joi.on_off "gps_status" v = inr (gps_status value)) /\
  Joi.optional req_body "timestamp" (Joi.iso_string iso) = inr (timestamp value) /\
  Joi.unknown_keys req_body = [].
Proof.
  unfold locationSchema_validate, Joi.validate, Joi.required.
  destruct (req_body !! "employee_id") as [v1|]; [|discriminate].
  destruct (Joi.number nos "employee_id" v1) as [|q1] eqn:Hn1; [discriminate|].
  cbn [Joi.bind]. unfold Joi.integer.
  destruct (JS.as_integer q1) as [z|] eqn:Hz; [|discriminate].
  cbn [Joi.bind]. unfold Joi.min at 1.
  destruct (Qle_bool (inject_Z 1) q1) eqn:Hq1; [|discriminate].
  cbn [Joi.bind].
  destruct (req_body !! "latitude") as [v2|]; [|discriminate].
  destruct (Joi.number nos "latitude" v2) as [|q2] eqn:Hn2; [discriminate|].
  cbn [Joi.bind]. unfold Joi.min at 1.
  destruct (Qle_bool (inject_Z (-90)) q2) eqn:Hlo2; [|discriminate].
  cbn [Joi.bind]. unfold Joi.max at 1.
  destruct (Qle_bool q2 (inject_Z 90)) eqn:Hhi2; [|discriminate].
  cbn [Joi.bind].
  destruct (req_body !! "longitude") as [v3|]; [|discriminate].
  destruct (Joi.number nos "longitude" v3) as [|q3] eqn:Hn3; [discriminate|].
  cbn [Joi.bind]. unfold Joi.min at 1.
  destruct (Qle_bool (inject_Z (-180)) q3) eqn:Hlo3; [|discriminate].
  cbn [Joi.bind]. unfold Joi.max at 1.
  destruct (Qle_bool q3 (inject_Z 180)) eqn:Hhi3; [|discriminate].
  cbn [Joi.bind].
  destruct (req_body !! "gps_status") as [v4|]; [|discriminate].
  destruct (Joi.on_off "gps_status" v4) as [|g] eqn:Hg; [discriminate|].
  cbn [Joi.bind].
  destruct (Joi.optional req_body "timestamp" (Joi.iso_string iso)) as [|t] eqn:Ht;
    [discriminate|].
  cbn [Joi.bind].
  destruct (Joi.unknown_keys req_body) eqn:Hu; [|discriminate].
  intros [= <-]. cbn. repeat split; eauto 10.
Qed.

Lemma number_safe nos key v q :
  Joi.number nos key v = inr q ->
  (inject_Z (- Joi.MAX_SAFE_INTEGER) <= q /\ q <= inject_Z Joi.MAX_SAFE_INTEGER)%Q.
Proof.
  unfold Joi.number.
  destruct (match v with JNum q0 => _ | JStr s => _ | _ => _ end) as [|q0];
    [discriminate|].
  cbn [Joi.bind].
  destruct (Qle_bool _ q0 && Qle_bool q0 _) eqn:Hb; [|discriminate].
  intros [= <-]. apply andb_prop in Hb as [H1 H2].
  by rewrite <- !Qle_bool_iff.
Qed.

Lemma accepted_report_in_ranges_aux nos iso (req_body : gmap string json) value :
  locationSchema_validate nos iso req_body = inr value ->
  in_schema_ranges value.
Proof.
  intros Hv.
  destruct (validate_inversion _ _ _ _ Hv)
    as ((v1 & q1 & _ & Hn1 & Hz & Hq1) & (v2 & _ & _ & Hlo2 & Hhi2) &
        (v3 & _ & _ & Hlo3 & Hhi3) & _).
  apply Qle_bool_iff in Hq1, Hlo2, Hhi2, Hlo3, Hhi3.
  destruct (number_safe _ _ _ _ Hn1) as [_ Hsafe].
  rewrite (as_integer_value _ _ Hz) in Hq1, Hsafe.
  rewrite <- Zle_Qle in Hq1, Hsafe.
  repeat split; assumption.
Qed.

(** X2: what the handler may rely on once validation has passed: the
    [employee_id] is an integer from 1 to 2^53 - 1, the latitude lies in
    [-90, 90], the longitude in [-180, 180], and the body has no
    property outside the schema. *)
Theorem accepted_report_in_ranges nos iso (req_body : gmap string json) value :
  locationSchema_validate nos iso req_body = inr value ->
  in_schema_ranges value /\
  (forall k, is_Some (req_body !! k) -> Joi.is_schema_key k = true).
Proof.
  intros Hv. split; [by apply (accepted_report_in_ranges_aux nos iso req_body)|].
  apply unknown_keys_nil.
  by destruct (validate_inversion _ _ _ _ Hv) as (_ & _ & _ & _ & _ & Hu).
Qed.

Lemma number_accepts nos key x lo hi :
  (inject_Z lo <= x)%Q ->
  (x <= inject_Z hi)%Q ->
  - Joi.MAX_SAFE_INTEGER <= lo ->
  hi <= Joi.MAX_SAFE_INTEGER ->
  Joi.number nos key (JNum x) = inr x.
Proof.
  intros H1 H2 H3 H4. unfold Joi.number. cbn [Joi.bind].
  assert (Hlo : Qle_bool (inject_Z (- Joi.MAX_SAFE_INTEGER)) x = true).
  { apply Qle_bool_iff. eapply Qle_trans; [|exact H1]. by rewrite <- Zle_Qle. }
  assert (Hhi : Qle_bool x (inject_Z Joi.MAX_SAFE_INTEGER) = true).
  { apply Qle_bool_iff. eapply Qle_trans; [exact H2|]. by rewrite <- Zle_Qle. }
  by rewrite Hlo, Hhi.
Qed.

(** X1: the schema accepts every well-formed report: a body that gives
    an integer [employee_id] from 1 to 2^53 - 1, a latitude in
    [-90, 90] and a longitude in [-180, 180] (bounds included) as JSON
    numbers, [gps_status] "on" or "off", at most a non-empty ISO date as
    [timestamp], and nothing else, validates to exactly these values,
    the [timestamp] in the ISO form the schema gives it. *)
Theorem well_formed_report_accepted nos iso (req_body : gmap string json) value :
  states iso req_body value ->
  in_schema_ranges value ->
  locationSchema_validate nos iso req_body = inr value.
Proof.
  intros ((q & Hid & Hz) & Hlat & Hlon & Hst & Hts & Hkeys)
         ((Hid1 & Hid2) & (Hlat1 & Hlat2) & (Hlon1 & Hlon2)).
  pose proof (as_integer_value _ _ Hz) as Hq.
  assert (N1 : Joi.number nos "employee_id" (JNum q) = inr q).
  { apply (number_accepts _ _ _ 1 Joi.MAX_SAFE_INTEGER);
      rewrite ?Hq, <- ?Zle_Qle; unfold Joi.MAX_SAFE_INTEGER in *; lia. }
  assert (N2 : Joi.number nos "latitude" (JNum (latitude value)) = inr (latitude value)).
  { by apply (number_accepts _ _ _ (-90) 90). }
  assert (N3 : Joi.number nos "longitude" (JNum (longitude value))
               = inr (longitude value)).
  { by apply (number_accepts _ _ _ (-180) 180). }
  unfold locationSchema_validate, Joi.validate, Joi.required.
  rewrite Hid, Hlat, Hlon, Hst, N1, N2, N3.
  cbn [Joi.bind]. unfold Joi.integer. rewrite Hz. cbn [Joi.bind].
  unfold Joi.min, Joi.max.
  assert (H1 : Qle_bool (inject_Z 1) q = true)
    by (apply Qle_bool_iff; rewrite Hq, <- Zle_Qle; lia).
  apply Qle_bool_iff in Hlat1, Hlat2, Hlon1, Hlon2.
  change (Qle_bool (inject_Z (-90)) (latitude value) = true) in Hlat1.
  change (Qle_bool (latitude value) (inject_Z 90) = true) in Hlat2.
  change (Qle_bool (inject_Z (-180)) (longitude value) = true) in Hlon1.
  change (Qle_bool (longitude value) (inject_Z 180) = true) in Hlon2.
  rewrite H1. cbn [Joi.bind]. rewrite Hlat1. cbn [Joi.bind]. rewrite Hlat2.
  cbn [Joi.bind]. rewrite Hlon1. cbn [Joi.bind]. rewrite Hlon2. cbn [Joi.bind].
  assert (Hg : Joi.on_off "gps_status" (JStr (gps_name (gps_status value)))
               = inr (gps_status value)) by (by destruct (gps_status value)).
  rewrite Hg. cbn [Joi.bind].
  assert (Ht : Joi.optional req_body "timestamp" (Joi.iso_string iso)
               = inr (timestamp value)).
  { unfold Joi.optional. destruct (timestamp value) as [iso_form|].
    - destruct Hts as (s & -> & Hne & Hiso). unfold Joi.iso_string.
      apply String.eqb_neq in Hne. by rewrite Hne, Hiso.
    - by rewrite Hts. }
  rewrite Ht. cbn [Joi.bind].
  apply unknown_keys_nil in Hkeys. rewrite Hkeys. by destruct value.
Qed.

Lemma required_missing {A : Type} (req_body : gmap string json) key
    (rule : string -> json -> Joi.error + A) :
  req_body !! key = None ->
  Joi.required req_body key rule = inl (Joi.any_required key).
Proof. unfold Joi.required. by intros ->. Qed.

(** X3: a body that lacks [employee_id], [latitude], [longitude] or
    [gps_status] is answered with 400, and nothing else happens. *)
Theorem missing_field_rejected nos iso e (req_body : gmap string json) key w :
  In key required_keys ->
  req_body !! key = None ->
  exists err,
    respond (post_location nos iso e req_body) w
    = (Some {| status := 400; body := invalid err |}, w).
Proof.
  intros Hkey Hnone.
  assert (Herr : exists err, locationSchema_validate nos iso req_body = inl err).
  { unfold locationSchema_validate, Joi.validate.
    destruct (Joi.required req_body "employee_id" _) eqn:E1; cbn [Joi.bind]; eauto.
    destruct (Joi.required req_body "latitude" _) eqn:E2; cbn [Joi.bind]; eauto.
    destruct (Joi.required req_body "longitude" _) eqn:E3; cbn [Joi.bind]; eauto.
    destruct (Joi.required req_body "gps_status" _) eqn:E4; cbn [Joi.bind]; eauto.
    exfalso. destruct Hkey as [<-|[<-|[<-|[<-|[]]]]].
    - rewrite required_missing in E1; [discriminate|exact Hnone].
    - rewrite required_missing in E2; [discriminate|exact Hnone].
    - rewrite required_missing in E3; [discriminate|exact Hnone].
    - rewrite required_missing in E4; [discriminate|exact Hnone]. }
  destruct Herr as [err Herr]. exists err. by apply post_invalid.
Qed.

(** X4: a report whose [employee_id] is a number that is not whole, or
    is below 1, is answered with 400 and the matching error, and
    nothing else happens: the worker id is checked before anything
    else. *)
Theorem bad_employee_id_rejected nos iso e (req_body : gmap string json) q w :
  req_body !! "employee_id" = Some (JNum q) ->
  JS.as_integer q = None \/ (q < 1)%Q ->
  exists err,
    In err [Joi.number_unsafe "employee_id"; Joi.number_integer "employee_id";
            Joi.number_min "employee_id"] /\
    respond (post_location nos iso e req_body) w
    = (Some {| status := 400; body := invalid err |}, w).
Proof.
  intros Hid Hbad.
  assert (Herr : exists err,
             In err [Joi.number_unsafe "employee_id"; Joi.number_integer "employee_id";
                     Joi.number_min "employee_id"] /\
             locationSchema_validate nos iso req_body = inl err).
  { unfold locationSchema_validate, Joi.validate, Joi.required. rewrite Hid.
    unfold Joi.number. cbn [Joi.bind].
    destruct (_ && _); [|cbn; eauto 6].
    cbn [Joi.bind]. unfold Joi.integer.
    destruct (JS.as_integer q) as [z|] eqn:Hz; [|cbn; eauto 6].
    cbn [Joi.bind]. unfold Joi.min at 1.
    destruct (Qle_bool (inject_Z 1) q) eqn:Hq; [|cbn; eauto 6].
    exfalso. destruct Hbad as [Hbad|Hbad]; [discriminate|].
    apply Qle_bool_iff in Hq. by apply (Qlt_not_le _ _ Hbad). }
  destruct Herr as (err & Hin & Herr). exists err. split; [exact Hin|].
  by apply post_invalid.
Qed.

(** X5: a report whose [gps_status] is anything but the string "on" or
    the string "off" is answered with 400, and nothing else happens. *)
Theorem bad_gps_status_rejected nos iso e (req_body : gmap string json) v w :
  req_body !! "gps_status" = Some v ->
  v <> JStr "on" ->
  v <> JStr "off" ->
  exists err,
    respond (post_location nos iso e req_body) w
    = (Some {| status := 400; body := invalid err |}, w).
Proof.
  intros Hst Hon Hoff.
  assert (Herr : exists err, locationSchema_validate nos iso req_body = inl err).
  { unfold locationSchema_validate, Joi.validate.
    destruct (Joi.required req_body "employee_id" _); cbn [Joi.bind]; eauto.
    destruct (Joi.required req_body "latitude" _); cbn [Joi.bind]; eauto.
    destruct (Joi.required req_body "longitude" _); cbn [Joi.bind]; eauto.
    unfold Joi.required at 1. rewrite Hst. unfold Joi.on_off.
    destruct v as [| | |s| |]; cbn [Joi.bind]; eauto.
    destruct (String.eqb s "on") eqn:E1.
    { apply String.eqb_eq in E1. by subst. }
    destruct (String.eqb s "off") eqn:E2.
    { apply String.eqb_eq in E2. by subst. }
    cbn [Joi.bind]. eauto. }
  destruct Herr as [err Herr]. exists err. by apply post_invalid.
Qed.

(** ** Ingestion, further properties *)

(** Rounding keeps a value between the whole bounds it lies between. *)
Lemma round_scaled_bounds q b :
  0 <= b ->
  (inject_Z (- b) <= q)%Q ->
  (q <= inject_Z b)%Q ->
  - (b * 1000000) <= SQL.round_scaled 6 q <= b * 1000000.
Proof.
  intros Hb Hlo Hhi. unfold SQL.round_scaled.
  destruct q as [n d]. unfold Qle in Hlo, Hhi.
  cbn [Qnum Qden inject_Z] in Hlo, Hhi. cbn [Qnum Qden].
  change (10 ^ 6) with 1000000.
  set (D := Z.pos d) in *. assert (HD : 0 < D) by (subst D; lia).
  set (N := n * 1000000).
  assert (Habs : Z.abs N <= (b * 1000000) * D) by (subst N; nia).
  assert (Hdiv : (2 * Z.abs N + D) / (2 * D) < b * 1000000 + 1).
  { apply Z.div_lt_upper_bound; [lia|]. nia. }
  assert (Hnn : 0 <= (2 * Z.abs N + D) / (2 * D)).
  { apply Z.div_pos; lia. }
  destruct (Z.sgn_spec N) as [[_ ->]|[[_ ->]|[_ ->]]]; lia.
Qed.

Lemma DECIMAL_10_6_in_range q b :
  0 <= b <= 9999 ->
  (inject_Z (- b) <= q)%Q ->
  (q <= inject_Z b)%Q ->
  SQL.DECIMAL_10_6 q = Some (SQL.round_scaled 6 q).
Proof.
  intros Hb Hlo Hhi. unfold SQL.DECIMAL_10_6.
  pose proof (round_scaled_bounds q b (proj1 Hb) Hlo Hhi) as Hr.
  destruct (Z.abs _ <=? 9999999999) eqn:Hc; [reflexivity|].
  apply Z.leb_gt in Hc. lia.
Qed.

(** X6: under a healthy store, a valid report is answered with 200
    exactly when its [employee_id] fits the [INT] column: then the
    current row is upserted and one history row appended, both with the
    coordinates rounded to six digits, and every client whose [send]
    works gets the frame; an [employee_id] above 2147483647 passes the
    schema but is answered with 500, with nothing written or sent. *)
Theorem healthy_store_outcome nos iso e req_body value w :
  locationSchema_validate nos iso req_body = inr value ->
  healthy e ->
  let lat := SQL.round_scaled 6 (latitude value) in
  let lon := SQL.round_scaled 6 (longitude value) in
  respond (post_location nos iso e req_body) w =
    if employee_id value <=? 2147483647 then
      (Some {| status := 200; body := updated (payload_of e value) |},
       {| committed :=
            {| employee_live_location :=
                 SQL.upsert (live_row_of e value lat lon)
                   (employee_live_location (committed w));
               employee_location_history :=
                 employee_location_history (committed w)
                 ++ [history_row_of e value lat lon] |};
          pending := None;
          wss_clients := wss_clients w;
          sent := sent w ++ delivered e (location (payload_of e value)) (wss_clients w) |})
    else
      (Some {| status := 500; body := failure "Database error" |}, closed w).
Proof.
  intros Hv He lat lon.
  destruct (accepted_report_in_ranges_aux nos iso req_body value Hv)
    as ((Hid1 & _) & (Hlat1 & Hlat2) & (Hlon1 & Hlon2)).
  rewrite (post_valid _ _ _ _ _ _ Hv), (He getConnection).
  unfold transaction, SQL.upsert_live, SQL.insert_history, SQL.INT.
  rewrite (He beginTransaction), (He query_upsert), (He query_history), (He commit),
    (He rollback).
  rewrite (DECIMAL_10_6_in_range (latitude value) 90) by (done || lia).
  rewrite (DECIMAL_10_6_in_range (longitude value) 180) by (done || lia).
  assert (Hlow : (-2147483648 <=? employee_id value) = true) by (apply Z.leb_le; lia).
  rewrite Hlow. cbn [andb].
  destruct (employee_id value <=? 2147483647); reflexivity.
Qed.

(** X7: only a 200 writes.  Whatever the body and whatever fails, a
    request to [POST /api/location] that is not answered with 200 (any
    400 or 500, or no response at all) leaves the committed tables, the
    frames sent and the client set as they were. *)
Theorem only_success_writes nos iso e req_body w :
  let outcome := respond (post_location nos iso e req_body) w in
  not_ok (fst outcome) ->
  committed (snd outcome) = committed w /\
  sent (snd outcome) = sent w /\
  wss_clients (snd outcome) = wss_clients w.
Proof.
  intros outcome. subst outcome.
  destruct (locationSchema_validate nos iso req_body) as [err|value] eqn:Hv.
  - rewrite (post_invalid _ _ _ _ _ _ Hv). by repeat split.
  - rewrite (post_valid _ _ _ _ _ _ Hv).
    destruct (fails e getConnection); [by repeat split|].
    destruct (transaction e value (committed w)).
    + cbn. intros H. by destruct H.
    + destruct (fails e rollback); by repeat split.
Qed.

(** ** What every run of the server keeps *)

(** A step leaves the committed data alone or commits one whole
    transaction of a valid report. *)
Lemma step_committed w w' :
  step w w' ->
  committed w' = committed w \/
  exists nos iso e req_body value,
    locationSchema_validate nos iso req_body = inr value /\
    transaction e value (committed w) = Some (committed w').
Proof.
  intros Hs. destruct Hs.
  - destruct (post_committed nos iso e req_body w)
      as [->|(value & d & Hv & Ht & ->)]; [by left|].
    right. by exists nos, iso, e, req_body, value.
  - left. by rewrite get_locations_world.
  - left. by rewrite get_history_world.
  - left. unfold on_connection, socket_send. by destruct (send_throws e c).
  - by left.
Qed.

Lemma transaction_fits_INT e value d d' :
  transaction e value d = Some d' -> employee_id value <= 2147483647.
Proof.
  unfold transaction, SQL.upsert_live, SQL.INT.
  destruct (fails e beginTransaction); [discriminate|].
  destruct (fails e query_upsert); [discriminate|].
  destruct (_ <=? employee_id value); [|discriminate].
  destruct (employee_id value <=? 2147483647) eqn:H; [|discriminate].
  intros _. by apply Z.leb_le.
Qed.

Lemma upsert_Forall (P : live_row -> Prop) new table :
  P new -> Forall P table -> Forall P (SQL.upsert new table).
Proof.
  intros Hn Ht.
  destruct (upsert_shape new table) as [[_ ->]|(pre & old & post & -> & _ & _ & ->)].
  - apply Forall_app. split; [exact Ht|by constructor].
  - apply Forall_app in Ht as [Hpre Hpost]. apply Forall_cons in Hpost as [_ Hpost].
    apply Forall_app. split; [exact Hpre|]. by constructor.
Qed.

(** X8: the tables never hold a value the schema would refuse: in every
    world the server can reach, every current row and every history
    record has an [employee_id] from 1 to 2147483647, a latitude within
    90 degrees and a longitude within 180 degrees of zero. *)
Theorem stored_values_stay_in_range w :
  reachable w -> stored_in_range (committed w).
Proof.
  induction 1 as [|w w' _ IH Hs].
  - split; constructor.
  - destruct (step_committed w w' Hs)
      as [->|(nos & iso & e & req_body & value & Hv & Ht)]; [exact IH|].
    destruct (accepted_report_in_ranges_aux _ _ _ _ Hv)
      as ((Hid & _) & (Hlat1 & Hlat2) & (Hlon1 & Hlon2)).
    pose proof (transaction_fits_INT _ _ _ _ Ht) as Hint.
    destruct (transaction_commits _ _ _ _ Ht) as (lat & lon & Hlat & Hlon & Hl & Hh).
    unfold stored_in_range. rewrite Hl, Hh.
    apply DECIMAL_10_6_Some in Hlat, Hlon.
    pose proof (round_scaled_bounds (latitude value) 90 ltac:(lia) Hlat1 Hlat2).
    pose proof (round_scaled_bounds (longitude value) 180 ltac:(lia) Hlon1 Hlon2).
    assert (Hok : stored_values_ok (employee_id value) lat lon)
      by (unfold stored_values_ok; lia).
    destruct IH as [IHl IHh]. split.
    + by apply upsert_Forall.
    + apply Forall_app. split; [exact IHh|by constructor].
Qed.

Lemma records_of_app d id h :
  List.filter (fun h' => hist_employee_id h' =? id)
    (employee_location_history d ++ [h])
  = records_of d id ++ (if hist_employee_id h =? id then [h] else []).
Proof. by rewrite List.filter_app. Qed.

Lemma upsert_keys new table :
  map live_employee_id (SQL.upsert new table) = map live_employee_id table \/
  map live_employee_id (SQL.upsert new table)
  = map live_employee_id table ++ [live_employee_id new].
Proof.
  destruct (upsert_shape new table) as [[_ ->]|(pre & old & post & -> & _ & Ho & ->)].
  - right. by rewrite map_app.
  - left. rewrite !map_app. cbn. by rewrite Ho.
Qed.

Lemma upsert_has_key new table :
  In (live_employee_id new) (map live_employee_id (SQL.upsert new table)).
Proof.
  destruct (upsert_shape new table) as [[_ ->]|(pre & old & post & _ & _ & _ & ->)];
    rewrite map_app; apply in_or_app; right; by left.
Qed.

(** Under the unique key, the rows after an upsert are the new row and
    the old rows of other workers. *)
Lemma upsert_rows new table l :
  NoDup (map live_employee_id table) ->
  In l (SQL.upsert new table) ->
  l = new \/ (In l table /\ live_employee_id l <> live_employee_id new).
Proof.
  intros Hnd Hin.
  destruct (upsert_shape new table) as [[Hn Heq]|(pre & old & post & -> & Hn & Ho & Heq)];
    rewrite Heq in Hin.
  - apply in_app_or in Hin as [Hin|[<-|[]]]; [|by left].
    right. split; [exact Hin|]. intros He. apply Hn. rewrite <- He. by apply in_map.
  - rewrite map_app in Hnd. cbn in Hnd.
    apply NoDup_app in Hnd as (_ & Hdisj & Hnd). apply NoDup_cons in Hnd as [Hnot _].
    apply in_app_or in Hin as [Hin|[<-|Hin]]; [|by left|].
    + right. split; [apply in_or_app; by left|].
      intros He. apply Hn. rewrite <- He. by apply in_map.
    + right. split; [apply in_or_app; right; by right|].
      intros He. apply Hnot. rewrite Ho, <- He.
      apply list_elem_of_In. by apply in_map.
Qed.

Lemma commit_keeps_agreement e value d d' :
  NoDup (live_keys d) ->
  tables_agree d ->
  transaction e value d = Some d' ->
  tables_agree d'.
Proof.
  intros Hnd [Hlive Hhist] Ht.
  destruct (transaction_commits _ _ _ _ Ht) as (lat & lon & _ & _ & Hl & Hh).
  split.
  - intros l Hin. rewrite Hl in Hin.
    unfold last_record, records_of. rewrite Hh, records_of_app.
    destruct (upsert_rows _ _ _ Hnd Hin) as [->|[Hold Hne]].
    + exists (history_row_of e value lat lon). cbn. rewrite Z.eqb_refl.
      split; [apply last_snoc|by repeat split].
    + cbn in Hne. cbn [history_row_of hist_employee_id].
      destruct (employee_id value =? live_employee_id l) eqn:Hk;
        [apply Z.eqb_eq in Hk; congruence|].
      rewrite app_nil_r. by apply Hlive.
  - intros h Hin. rewrite Hh in Hin. unfold live_keys. rewrite Hl.
    apply in_app_or in Hin as [Hin|[<-|[]]].
    + specialize (Hhist h Hin). unfold live_keys in Hhist.
      destruct (upsert_keys (live_row_of e value lat lon) (employee_live_location d))
        as [->| ->]; [exact Hhist|]. apply in_or_app. by left.
    + apply (upsert_has_key (live_row_of e value lat lon)).
Qed.

(** X9: the current-position table and the history never disagree: in
    every world the server can reach, each current row carries the
    worker, coordinates and status of that worker's latest history
    record, and every worker with a history record has a current
    row. *)
Theorem current_and_history_agree w :
  reachable w -> tables_agree (committed w).
Proof.
  induction 1 as [|w w' Hr IH Hs].
  - split; intros ? [].
  - destruct (step_committed w w' Hs)
      as [->|(nos & iso & e & req_body & value & Hv & Ht)]; [exact IH|].
    eapply commit_keeps_agreement; [|exact IH|exact Ht].
    by apply reachable_keys_NoDup.
Qed.

(** X10: the history is append-only and no worker ever leaves the
    current table: from any world, whatever requests and socket events
    follow, the history records there stay where they are, as a prefix
    of the later history, and the workers with a current row keep
    one. *)
Theorem history_only_grows w w' :
  rtc step w w' ->
  employee_location_history (committed w)
    `prefix_of` employee_location_history (committed w') /\
  live_keys (committed w) `prefix_of` live_keys (committed w').
Proof.
  induction 1 as [w|w w1 w2 Hs _ [IHh IHl]]; [done|].
  assert (H1 : employee_location_history (committed w)
                 `prefix_of` employee_location_history (committed w1) /\
               live_keys (committed w) `prefix_of` live_keys (committed w1)).
  { destruct (step_committed w w1 Hs)
      as [->|(nos & iso & e & req_body & value & Hv & Ht)]; [done|].
    destruct (transaction_commits _ _ _ _ Ht) as (lat & lon & _ & _ & Hl & Hh).
    unfold live_keys. rewrite Hl, Hh. split; [by eexists|].
    destruct (upsert_keys (live_row_of e value lat lon)
                (employee_live_location (committed w))) as [->| ->];
      [done|by eexists]. }
  destruct H1 as [H1h H1l]. split; etrans; eassumption.
Qed.

Lemma find_upsert_same new table :
  List.find (fun r => live_employee_id r =? live_employee_id new) (SQL.upsert new table)
  = Some new.
Proof.
  induction table as [|r rest IH]; cbn.
  - by rewrite Z.eqb_refl.
  - destruct (live_employee_id r =? live_employee_id new) eqn:Hk; cbn; rewrite Hk.
    + apply Z.eqb_eq in Hk. f_equal. destruct new; cbn in *. by subst.
    + exact IH.
Qed.

Lemma find_upsert_other new table id :
  id <> live_employee_id new ->
  List.find (fun r => live_employee_id r =? id) (SQL.upsert new table)
  = List.find (fun r => live_employee_id r =? id) table.
Proof.
  intros Hne. induction table as [|r rest IH]; cbn.
  - destruct (live_employee_id new =? id) eqn:Hk; [|reflexivity].
    apply Z.eqb_eq in Hk. congruence.
  - destruct (live_employee_id r =? live_employee_id new) eqn:Hk; cbn.
    + apply Z.eqb_eq in Hk.
      destruct (live_employee_id r =? id) eqn:Hi; [|reflexivity].
      apply Z.eqb_eq in Hi. congruence.
    + by rewrite IH.
Qed.

(** X11: workers do not interfere.  After a report answered with 200,
    looking up the reporting worker gives the row just written and the
    worker's history has one more record, the report, at its end (also
    when it repeats an earlier one), while the current row and the
    history records of every other worker are what they were before
    the request. *)
Theorem accepted_report_touches_one_worker nos iso e req_body data w w' :
  respond (post_location nos iso e req_body) w
  = (Some {| status := 200; body := data |}, w') ->
  exists value,
    locationSchema_validate nos iso req_body = inr value /\
    current_of (committed w') (employee_id value)
    = Some (live_row_of e value (SQL.round_scaled 6 (latitude value))
              (SQL.round_scaled 6 (longitude value))) /\
    records_of (committed w') (employee_id value)
    = records_of (committed w) (employee_id value)
      ++ [history_row_of e value (SQL.round_scaled 6 (latitude value))
            (SQL.round_scaled 6 (longitude value))] /\
    forall other,
      other <> employee_id value ->
      current_of (committed w') other = current_of (committed w) other /\
      records_of (committed w') other = records_of (committed w) other.
Proof.
  intros Hpost.
  destruct (post_success _ _ _ _ _ _ _ Hpost) as (value & d & Hv & Ht & _ & ->).
  destruct (transaction_commits _ _ _ _ Ht) as (lat & lon & Hlat & Hlon & Hl & Hh).
  apply DECIMAL_10_6_Some in Hlat, Hlon. subst lat lon.
  exists value. split; [exact Hv|]. cbn [committed]. unfold current_of, records_of.
  rewrite Hl, Hh. split; [|split].
  - apply (find_upsert_same (live_row_of e value _ _)).
  - rewrite records_of_app. cbn. by rewrite Z.eqb_refl.
  - intros other Hne. split.
    + by apply find_upsert_other.
    + rewrite records_of_app. cbn.
      destruct (employee_id value =? other) eqn:Hk;
        [apply Z.eqb_eq in Hk; congruence|by rewrite app_nil_r].
Qed.

(** ** The history endpoint, further properties *)

(** X13: the history endpoint always answers and never changes the
    world, whatever the store does; and its guard answers 400 exactly
    when [Number(employee_id)] is [NaN] or zero: every other number,
    negative, fractional or infinite, goes on to the query. *)
Theorem history_guard_exact select e id lim w :
  exists r,
    respond (get_history select e id lim) w = (Some r, w) /\
    (status r = 400 <->
     JS.Number (JS.Str id) = JS.NaN \/
     exists q, JS.Number (JS.Str id) = JS.Fin q /\ (q == 0)%Q).
Proof.
  rewrite get_history_cases. eexists. split; [reflexivity|].
  unfold JS.not, JS.truthy, JS.is_zero.
  destruct (JS.Number (JS.Str id)) as [| | |q]; cbn [negb].
  - split; [by left|reflexivity].
  - assert (Hs : forall r : response, status r = 200 \/ status r = 500 -> status r <> 400)
      by (intros r [-> | ->]; discriminate).
    split; [|intros [H|(q & H & _)]; discriminate].
    intros H. exfalso. revert H. apply Hs.
    destruct (fails e query_select); [by right|].
    destruct (select_history _ _ _ _); [by left|by right].
  - split; [|intros [H|(q & H & _)]; discriminate].
    intros H. exfalso. revert H.
    destruct (fails e query_select); [discriminate|].
    destruct (select_history _ _ _ _); discriminate.
  - rewrite negb_involutive. destruct (Qnum q =? 0) eqn:Hz.
    + split; [|reflexivity]. intros _. right. exists q. split; [reflexivity|].
      apply Z.eqb_eq in Hz. unfold Qeq. cbn. lia.
    + split.
      * intros H. exfalso. revert H.
        destruct (fails e query_select); [discriminate|].
        destruct (select_history _ _ _ _); discriminate.
      * intros [H|(q' & [= <-] & Hq)]; [discriminate|].
        apply Z.eqb_neq in Hz. unfold Qeq in Hq. cbn in Hq. lia.
Qed.

(** The guard at ids that [Number] changes: [1e-400] underflows to zero
    and is refused, an id wrapped in no-break spaces is that of worker
    7, and [1e400], an infinity, passes the guard and fails in the
    store. *)
Example history_guard_examples :
  fst (respond (get_history SQL.scan_backward Sample.quiet "1e-400" JS.Undefined)
         UpsertExample.after_first_report)
  = Some {| status := 400; body := failure "Invalid employee_id" |} /\
  fst (respond (get_history SQL.scan_backward Sample.quiet
                  (Sample.nbsp ++ "7" ++ Sample.nbsp) JS.Undefined)
         UpsertExample.after_first_report)
  = Some {| status := 200;
            body := history_rows
                      [{| hist_employee_id := 7; hist_latitude := 12971600;
                          hist_longitude := 77594600; hist_gps_status := On;
                          hist_recorded_at := 1700000000 |}] |} /\
  fst (respond (get_history SQL.scan_backward Sample.quiet "1e400" JS.Undefined)
         UpsertExample.after_first_report)
  = Some {| status := 500; body := failure "Database error" |}.
Proof. repeat split; vm_compute; reflexivity. Qed.

(** *** [Number] on decimal notation *)

Ltac each_digit H :=
  repeat (destruct H as [<-|H]; [try reflexivity; try discriminate|]);
  try (destruct H).

Lemma digits_step c k base acc len t :
  JS.digit_of base c = Some k ->
  JS.digits base acc len (c :: t) = JS.digits base (base * acc + k) (S len) t.
Proof. intros H. cbn [JS.digits]. by rewrite H. Qed.

Lemma digits_uint_acc d : forall acc len,
  JS.digits 10 (Z.pos acc) len (uint_chars d)
  = (Z.pos (Pos.of_uint_acc d acc), (len + Decimal.nb_digits d)%nat, []).
Proof.
  unfold uint_chars.
  induction d as [|d IH|d IH|d IH|d IH|d IH|d IH|d IH|d IH|d IH|d IH]; intros acc len;
    cbn [DecimalString.NilEmpty.string_of_uint list_ascii_of_string
         Pos.of_uint_acc Decimal.nb_digits].
  - cbn. by rewrite Nat.add_0_r.
  - rewrite (digits_step _ 0) by reflexivity.
    replace (10 * Z.pos acc + 0) with (Z.pos (10 * acc)) by lia.
    rewrite IH. by rewrite Nat.add_succ_r.
  - rewrite (digits_step _ 1) by reflexivity.
    replace (10 * Z.pos acc + 1) with (Z.pos (1 + 10 * acc)) by lia.
    rewrite IH. by rewrite Nat.add_succ_r.
  - rewrite (digits_step _ 2) by reflexivity.
    replace (10 * Z.pos acc + 2) with (Z.pos (2 + 10 * acc)) by lia.
    rewrite IH. by rewrite Nat.add_succ_r.
  - rewrite (digits_step _ 3) by reflexivity.
    replace (10 * Z.pos acc + 3) with (Z.pos (3 + 10 * acc)) by lia.
    rewrite IH. by rewrite Nat.add_succ_r.
  - rewrite (digits_step _ 4) by reflexivity.
    replace (10 * Z.pos acc + 4) with (Z.pos (4 + 10 * acc)) by lia.
    rewrite IH. by rewrite Nat.add_succ_r.
  - rewrite (digits_step _ 5) by reflexivity.
    replace (10 * Z.pos acc + 5) with (Z.pos (5 + 10 * acc)) by lia.
    rewrite IH. by rewrite Nat.add_succ_r.
  - rewrite (digits_step _ 6) by reflexivity.
    replace (10 * Z.pos acc + 6) with (Z.pos (6 + 10 * acc)) by lia.
    rewrite IH. by rewrite Nat.add_succ_r.
  - rewrite (digits_step _ 7) by reflexivity.
    replace (10 * Z.pos acc + 7) with (Z.pos (7 + 10 * acc)) by lia.
    rewrite IH. by rewrite Nat.add_succ_r.
  - rewrite (digits_step _ 8) by reflexivity.
    replace (10 * Z.pos acc + 8) with (Z.pos (8 + 10 * acc)) by lia.
    rewrite IH. by rewrite Nat.add_succ_r.
  - rewrite (digits_step _ 9) by reflexivity.
    replace (10 * Z.pos acc + 9) with (Z.pos (9 + 10 * acc)) by lia.
    rewrite IH. by rewrite Nat.add_succ_r.
Qed.

Lemma digits_uint d : forall len,
  JS.digits 10 0 len (uint_chars d)
  = (Z.of_N (Pos.of_uint d), (len + Decimal.nb_digits d)%nat, []).
Proof.
  induction d as [|d IH|d IH|d IH|d IH|d IH|d IH|d IH|d IH|d IH|d IH]; intros len;
    unfold uint_chars in *;
    cbn [DecimalString.NilEmpty.string_of_uint list_ascii_of_string
         Pos.of_uint Decimal.nb_digits].
  - cbn. by rewrite Nat.add_0_r.
  - rewrite (digits_step _ 0) by reflexivity. cbn [Z.mul Z.add].
    rewrite IH. by rewrite Nat.add_succ_r.
  - rewrite (digits_step _ 1) by reflexivity.
    rewrite (digits_uint_acc d 1). by rewrite Nat.add_succ_r.
  - rewrite (digits_step _ 2) by reflexivity.
    rewrite (digits_uint_acc d 2). by rewrite Nat.add_succ_r.
  - rewrite (digits_step _ 3) by reflexivity.
    rewrite (digits_uint_acc d 3). by rewrite Nat.add_succ_r.
  - rewrite (digits_step _ 4) by reflexivity.
    rewrite (digits_uint_acc d 4). by rewrite Nat.add_succ_r.
  - rewrite (digits_step _ 5) by reflexivity.
    rewrite (digits_uint_acc d 5). by rewrite Nat.add_succ_r.
  - rewrite (digits_step _ 6) by reflexivity.
    rewrite (digits_uint_acc d 6). by rewrite Nat.add_succ_r.
  - rewrite (digits_step _ 7) by reflexivity.
    rewrite (digits_uint_acc d 7). by rewrite Nat.add_succ_r.
  - rewrite (digits_step _ 8) by reflexivity.
    rewrite (digits_uint_acc d 8). by rewrite Nat.add_succ_r.
  - rewrite (digits_step _ 9) by reflexivity.
    rewrite (digits_uint_acc d 9). by rewrite Nat.add_succ_r.
Qed.

Lemma uint_chars_digits d : Forall (fun c => In c digit_chars) (uint_chars d).
Proof.
  unfold uint_chars.
  induction d; cbn [DecimalString.NilEmpty.string_of_uint list_ascii_of_string];
    constructor; try assumption; cbn; tauto.
Qed.

Lemma trim_left_digit c t : In c digit_chars -> JS.trim_left (c :: t) = c :: t.
Proof.
  intros H. unfold digit_chars in H.
  repeat (destruct H as [<-|H]; [by destruct t as [|b [|d t3]]|]).
  destruct H.
Qed.

Lemma ws_needs_no_digit a :
  In a digit_chars ->
  JS.is_ws a = false /\
  (forall b, JS.is_ws2 b a = false) /\
  (forall b c, JS.is_ws3 c b a = false).
Proof.
  intros H. unfold digit_chars in H.
  repeat (destruct H as [<-|H];
          [split; [reflexivity|]; split; intros;
           unfold JS.is_ws2, JS.is_ws3; cbn;
           rewrite ?andb_false_r; cbn; rewrite ?andb_false_r; reflexivity|]).
  destruct H.
Qed.

Lemma trim_left_reversed_digit c t :
  In c digit_chars -> JS.trim_left_reversed (c :: t) = c :: t.
Proof.
  intros H. destruct (ws_needs_no_digit c H) as (H1 & H2 & H3).
  cbn [JS.trim_left_reversed]. rewrite H1.
  destruct t as [|b [|d t3]]; [reflexivity| |]; rewrite H2; [reflexivity|].
  by rewrite H3.
Qed.

Lemma trim_digits l : Forall (fun c => In c digit_chars) l -> JS.trim l = l.
Proof.
  intros Hl. unfold JS.trim.
  assert (Hrev : Forall (fun c => In c digit_chars) (rev l)).
  { apply Forall_forall. intros c Hc. rewrite Forall_forall in Hl. apply Hl.
    apply list_elem_of_In. apply in_rev. by apply list_elem_of_In. }
  assert (H1 : JS.trim_left l = l).
  { destruct l as [|c t]; [reflexivity|].
    apply trim_left_digit. by apply Forall_cons in Hl as [H _]. }
  assert (H2 : JS.trim_left_reversed (rev l) = rev l).
  { destruct (rev l) as [|c t]; [reflexivity|].
    apply trim_left_reversed_digit. by apply Forall_cons in Hrev as [H _]. }
  rewrite H1, H2. apply rev_involutive.
Qed.

Lemma non_decimal_digits l :
  Forall (fun c => In c digit_chars) l -> JS.non_decimal l = None.
Proof.
  intros Hl. destruct l as [|z [|p t]]; try reflexivity.
  apply Forall_cons in Hl as [_ Hl]. apply Forall_cons in Hl as [Hp _].
  unfold JS.non_decimal. destruct (Ascii.eqb z "0"); [|reflexivity].
  unfold digit_chars in Hp. each_digit Hp.
Qed.

Lemma unsigned_literal_digits c t :
  In c digit_chars ->
  JS.unsigned_literal (c :: t)
  = match JS.unsigned_decimal (c :: t) with
    | Some q => JS.Fin q
    | None => JS.NaN
    end.
Proof.
  intros Hc. unfold JS.unsigned_literal, JS.list_ascii_eqb, JS.infinity_lit.
  cbn [string_of_list_ascii list_ascii_of_string String.eqb].
  unfold digit_chars in Hc. each_digit Hc.
Qed.

Lemma StringNumericValue_decimal p :
  JS.StringNumericValue (decimal p) = JS.Fin (inject_Z (Z.pos p)).
Proof.
  unfold JS.StringNumericValue, decimal.
  pose proof (uint_chars_digits (Pos.to_uint p)) as Hd.
  pose proof (digits_uint (Pos.to_uint p) 0) as Hv.
  rewrite DecimalPos.Unsigned.of_to in Hv. cbn [Z.of_N Nat.add] in Hv.
  pose proof (DecimalPos.Unsigned.to_uint_nonnil p) as Hnil.
  fold (uint_chars (Pos.to_uint p)). rewrite (trim_digits _ Hd).
  destruct (uint_chars (Pos.to_uint p)) as [|c t] eqn:Hl.
  { exfalso. apply Hnil. unfold uint_chars in Hl.
    by destruct (Pos.to_uint p). }
  rewrite (non_decimal_digits _ Hd).
  apply Forall_cons in Hd as [Hc _].
  assert (Hsign : Ascii.eqb c "-" = false /\ Ascii.eqb c "+" = false).
  { unfold digit_chars in Hc. each_digit Hc; split; reflexivity. }
  destruct Hsign as [-> ->].
  rewrite (unsigned_literal_digits _ _ Hc).
  unfold JS.unsigned_decimal. rewrite Hv.
  destruct (Decimal.nb_digits (Pos.to_uint p)) eqn:Hn.
  { exfalso. apply Hnil. by destruct (Pos.to_uint p). }
  cbn [Nat.add JS.exponent]. unfold JS.scale10. cbn [Z.sub Z.of_nat Z.leb Z.compare Z.opp].
  by rewrite Z.pow_0_r, Z.mul_1_r.
Qed.

Lemma round_half_even_exact n d :
  0 < d -> n mod d = 0 -> JS.round_half_even n d = n / d.
Proof.
  intros Hd Hm. unfold JS.round_half_even. rewrite Hm, Z.mul_0_r.
  destruct (Z.compare_spec 0 d); [lia|reflexivity|lia].
Qed.

(** Whole numbers below [2 ^ 53] are doubles. *)
Lemma RoundMVResult_safe_integer p :
  Z.pos p < 2 ^ 53 ->
  JS.RoundMVResult (JS.Fin (inject_Z (Z.pos p))) = JS.Fin (inject_Z (Z.pos p)).
Proof.
  intros Hp. unfold JS.RoundMVResult. cbn [inject_Z Qnum Z.eqb Z.ltb Z.compare].
  assert (Hv : exists v, JS.nearest_double (Qmake (Z.pos p) 1) = JS.Fin v /\
                         Qeq_bool (Qmake (Z.pos p) 1) v = true).
  { unfold JS.nearest_double. cbn [Qnum Qden]. rewrite Z.log2_1, Z.sub_0_r.
    set (P := Z.pos p) in *. set (L := Z.log2 P).
    assert (HP : 0 < P) by (subst P; lia).
    destruct (Z.log2_spec P HP) as [Hlo Hhi]. fold L in Hlo, Hhi.
    assert (HL0 : 0 <= L) by apply Z.log2_nonneg.
    assert (HL : L < 53) by (by apply Z.log2_lt_pow2).
    unfold JS.ge_pow2.
    replace (0 <=? L) with true by (symmetry; by apply Z.leb_le).
    replace (1 * 2 ^ L <=? P) with true by (symmetry; apply Z.leb_le; lia).
    destruct (Z.max_spec (L - 52) (-1074)) as [[Hm ->]|[Hm ->]]; [lia|].
    destruct (0 <=? L - 52) eqn:Hex.
    - apply Z.leb_le in Hex. assert (L = 52) by lia. subst L.
      replace (Z.log2 P - 52) with 0 by lia. rewrite Z.pow_0_r, !Z.mul_1_r.
      rewrite round_half_even_exact by (lia || apply Z.mod_1_r).
      rewrite Z.div_1_r.
      assert (H1024 : (2 ^ 1024 <=? P) = false).
      { apply Z.leb_gt. apply Z.lt_trans with (2 ^ 53); [exact Hp|].
        apply Z.pow_lt_mono_r; lia. }
      rewrite H1024. eexists. split; [reflexivity|].
      apply Qeq_bool_iff. reflexivity.
    - apply Z.leb_gt in Hex.
      rewrite round_half_even_exact by (lia || apply Z.mod_1_r).
      rewrite Z.div_1_r.
      assert (Hpow : 0 < 2 ^ (- (L - 52))) by (apply Z.pow_pos_nonneg; lia).
      destruct (P * 2 ^ (- (L - 52)) =? 0) eqn:Hz; [apply Z.eqb_eq in Hz; nia|].
      eexists. split; [reflexivity|].
      apply Qeq_bool_iff. unfold Qeq. cbn [Qnum Qden].
      rewrite Z2Pos.id by exact Hpow. lia. }
  change (inject_Z (Z.pos p)) with (Qmake (Z.pos p) 1).
  destruct Hv as (v & -> & Hq). unfold JS.keep. by rewrite Hq.
Qed.

Lemma Number_decimal p :
  Z.pos p < 2 ^ 53 ->
  JS.Number (JS.Str (decimal p)) = JS.Fin (inject_Z (Z.pos p)).
Proof.
  intros Hp. cbn [JS.Number]. unfold JS.StringToNumber.
  rewrite StringNumericValue_decimal. by apply RoundMVResult_safe_integer.
Qed.

Lemma decimal_nonempty p : String.eqb (decimal p) "" = false.
Proof.
  unfold decimal. pose proof (DecimalPos.Unsigned.to_uint_nonnil p) as Hnil.
  by destruct (Pos.to_uint p).
Qed.

Lemma as_integer_inject z : JS.as_integer (inject_Z z) = Some z.
Proof.
  unfold JS.as_integer. cbn [inject_Z Qnum Qden].
  by rewrite Z.mod_1_r, Z.div_1_r.
Qed.

Lemma Math_min_inject a b :
  JS.Math_min (JS.Fin (inject_Z a)) (JS.Fin (inject_Z b)) = JS.Fin (inject_Z (Z.min a b)).
Proof.
  cbn [JS.Math_min]. unfold Qle_bool. cbn [inject_Z Qnum Qden]. rewrite !Z.mul_1_r.
  destruct (a <=? b) eqn:H.
  - apply Z.leb_le in H. by rewrite Z.min_l.
  - apply Z.leb_gt in H. by rewrite Z.min_r by lia.
Qed.

Lemma history_limit_decimal k :
  Z.pos k < 2 ^ 53 ->
  SQL.limit_literal (history_limit (JS.Str (decimal k)))
  = Some (Z.to_nat (Z.min (Z.pos k) 5000)).
Proof.
  intros Hk.
  unfold history_limit, JS.or, JS.truthy. rewrite decimal_nonempty. cbn [negb].
  rewrite Number_decimal by exact Hk.
  change (JS.Fin 5000) with (JS.Fin (inject_Z 5000)). rewrite Math_min_inject.
  unfold SQL.limit_literal. rewrite as_integer_inject.
  destruct (0 <=? Z.min (Z.pos k) 5000) eqn:H; [reflexivity|].
  apply Z.leb_gt in H. lia.
Qed.

(** X14: asking for a worker by number.  For every positive whole
    number below 2^53 written in decimal as the [employee_id] of the
    path, and a store that answers, the history endpoint passes its
    guard and asks the store for exactly that worker: with [limit] a
    positive whole number below 2^53 in decimal, for at most the
    smaller of that number and 5000 rows; with no [limit], for at most
    500. *)
Theorem history_by_decimal_id select e id k w :
  Z.pos id < 2 ^ 53 ->
  Z.pos k < 2 ^ 53 ->
  fails e query_select = false ->
  respond (get_history select e (decimal id) (JS.Str (decimal k))) w
  = (Some {| status := 200;
             body := history_rows
                       (select (committed w) (inject_Z (Z.pos id))
                          (Z.to_nat (Z.min (Z.pos k) 5000))) |}, w) /\
  respond (get_history select e (decimal id) JS.Undefined) w
  = (Some {| status := 200;
             body := history_rows
                       (select (committed w) (inject_Z (Z.pos id)) 500%nat) |}, w).
Proof.
  intros Hid Hk He. rewrite !get_history_cases, (Number_decimal id Hid), He.
  unfold select_history. cbn [JS.not JS.truthy JS.is_zero inject_Z Qnum Z.eqb negb
                              SQL.literal].
  rewrite (history_limit_decimal k Hk). split; reflexivity.
Qed.

(** ** Sockets: connection and order of frames *)

Lemma frames_to_app c l1 l2 :
  frames_to c (l1 ++ l2) = frames_to c l1 ++ frames_to c l2.
Proof. unfold frames_to. by rewrite List.filter_app, map_app. Qed.

Lemma frames_to_delivered_absent e msg c clients :
  ~ In c clients -> frames_to c (delivered e msg clients) = [].
Proof.
  intros Hn. unfold frames_to, delivered.
  induction clients as [|c' rest IH]; cbn; [reflexivity|].
  assert (Hne : c' <> c) by (intros ->; apply Hn; by left).
  assert (IH' := IH (fun H => Hn (or_intror H))).
  destruct (send_throws e c'); cbn; [exact IH'|].
  apply Nat.eqb_neq in Hne. rewrite Hne. exact IH'.
Qed.

Lemma delivered_app e msg l1 l2 :
  delivered e msg (l1 ++ l2) = delivered e msg l1 ++ delivered e msg l2.
Proof. unfold delivered. by rewrite List.filter_app, map_app. Qed.

Lemma frames_to_delivered_once e msg c clients :
  NoDup clients ->
  In c clients ->
  send_throws e c = false ->
  frames_to c (delivered e msg clients) = [msg].
Proof.
  intros Hnd Hin Hs. induction clients as [|c' rest IH]; [destruct Hin|].
  apply NoDup_cons in Hnd as [Hnot Hnd].
  change (c' :: rest) with ([c'] ++ rest).
  rewrite delivered_app, frames_to_app. destruct Hin as [->|Hin].
  - rewrite (frames_to_delivered_absent e msg c rest)
      by (intros H; apply Hnot; by apply list_elem_of_In).
    unfold delivered, frames_to. cbn. rewrite Hs. cbn. by rewrite Nat.eqb_refl.
  - rewrite (IH Hnd Hin).
    assert (Hne : c' <> c) by (intros ->; apply Hnot; by apply list_elem_of_In).
    rewrite (frames_to_delivered_absent e msg c [c']); [reflexivity|].
    intros [H|[]]. by apply Hne.
Qed.

(** X15: no replay.  A socket that connects after a report was accepted
    is greeted with [hello] and the server's clock, and of the location
    frames it gets only those of reports accepted after it connected:
    with one report before and one after, its frames are the greeting
    and the second report. *)
Theorem late_observer_sees_no_replay nos iso e1 e2 e3 b1 b2 c w w1 w2 w3 d1 d2 :
  ~ In c (wss_clients w) ->
  frames_to c (sent w) = [] ->
  respond (post_location nos iso e1 b1) w = (Some {| status := 200; body := d1 |}, w1) ->
  on_connection e2 c w1 = (Ok tt, w2) ->
  respond (post_location nos iso e3 b2) w2 = (Some {| status := 200; body := d2 |}, w3) ->
  send_throws e3 c = false ->
  exists obj2,
    d2 = updated obj2 /\
    frames_to c (sent w3) = [hello (Date_now e2); location obj2].
Proof.
  intros Hfresh Hnone H1 H2 H3 Hs.
  destruct (post_success _ _ _ _ _ _ _ H1) as (v1 & db1 & _ & _ & _ & ->).
  unfold on_connection, socket_send in H2. cbn in H2.
  destruct (send_throws e2 c); [discriminate|]. injection H2 as <-.
  destruct (post_success _ _ _ _ _ _ _ H3) as (v2 & db2 & _ & _ & -> & ->).
  exists (payload_of e3 v2). split; [reflexivity|]. cbn [sent wss_clients].
  rewrite !frames_to_app, Hnone.
  rewrite (frames_to_delivered_absent e1 _ c _ Hfresh).
  rewrite delivered_app, frames_to_app, (frames_to_delivered_absent e3 _ c _ Hfresh).
  unfold delivered, frames_to. cbn. rewrite Hs. cbn. by rewrite Nat.eqb_refl.
Qed.

(** X16: frames follow the order of acceptance.  A socket of the
    client set whose [send] works gets, for two reports accepted one
    after the other, the frame of the first and then the frame of the
    second, after whatever it had before. *)
Theorem frames_follow_acceptance_order nos iso e1 e2 b1 b2 c w w1 w2 d1 d2 :
  NoDup (wss_clients w) ->
  In c (wss_clients w) ->
  send_throws e1 c = false ->
  send_throws e2 c = false ->
  respond (post_location nos iso e1 b1) w = (Some {| status := 200; body := d1 |}, w1) ->
  respond (post_location nos iso e2 b2) w1 = (Some {| status := 200; body := d2 |}, w2) ->
  exists obj1 obj2,
    d1 = updated obj1 /\
    d2 = updated obj2 /\
    frames_to c (sent w2) = frames_to c (sent w) ++ [location obj1; location obj2].
Proof.
  intros Hnd Hin Hs1 Hs2 H1 H2.
  destruct (post_success _ _ _ _ _ _ _ H1) as (v1 & db1 & _ & _ & -> & ->).
  destruct (post_success _ _ _ _ _ _ _ H2) as (v2 & db2 & _ & _ & -> & ->).
  exists (payload_of e1 v1), (payload_of e2 v2). repeat split.
  cbn [sent wss_clients]. rewrite !frames_to_app.
  rewrite (frames_to_delivered_once e1 _ c _ Hnd Hin Hs1).
  rewrite (frames_to_delivered_once e2 _ c _ Hnd Hin Hs2).
  by rewrite <- app_assoc.
Qed.

(** ** The read endpoints *)

(** X17: [GET /health] and [GET /api/locations] always answer and
    never change the world, whatever the store does: with a store that
    answers, [200 ok] and 200 with every current row; with a store that
    fails, [500 db_error] and 500 [Database error]. *)
Theorem reads_always_answer e w :
  get_health e w
  = (Ok (if fails e query_select
         then {| health_code := 500; health_status := "db_error" |}
         else {| health_code := 200; health_status := "ok" |}), w) /\
  respond (get_locations e) w
  = (Some (if fails e query_select
           then {| status := 500; body := failure "Database error" |}
           else {| status := 200;
                   body := live_rows (employee_live_location (committed w)) |}), w).
Proof.
  unfold get_health, respond, get_locations, try_catch, bind, pool_query,
    json_response, ret.
  by destruct (fails e query_select).
Qed.

(** ** Schema set-up *)

(** X18: whatever fails during [ensureSchema], the connection goes back
    to the pool and nothing that was there is lost: a table that
    existed still exists with the same rows, and a view that existed
    still exists; and when the call resolves, both tables and the view
    exist. *)
Theorem ensureSchema_keeps_rows_and_connection f st :
  let out := fst (Schema.ensureSchema f st) in
  let st' := snd (Schema.ensureSchema f st) in
  Schema.in_use st' = Schema.in_use st /\
  (forall rows, Schema.live_table (Schema.cat st) = Some rows ->
                Schema.live_table (Schema.cat st') = Some rows) /\
  (forall rows, Schema.history_table (Schema.cat st) = Some rows ->
                Schema.history_table (Schema.cat st') = Some rows) /\
  (Schema.latest_view (Schema.cat st) = true ->
   Schema.latest_view (Schema.cat st') = true) /\
  (out = Schema.resolved ->
   is_Some (Schema.live_table (Schema.cat st')) /\
   is_Some (Schema.history_table (Schema.cat st')) /\
   Schema.latest_view (Schema.cat st') = true).
Proof.
  destruct st as [[live hist view] n].
  unfold Schema.ensureSchema, Schema.queries, Schema.query.
  destruct (Schema.getConnection_fails f); cbn.
  { repeat split; try done. }
  destruct (Schema.statement_fails f Schema.set_sql_mode); cbn;
    [repeat split; done|].
  destruct (Schema.statement_fails f Schema.create_live_table); cbn;
    [repeat split; done|].
  destruct (Schema.statement_fails f Schema.create_history_table); cbn;
    [repeat split; try done; by intros rows ->|].
  destruct (Schema.statement_fails f Schema.create_view); cbn;
    repeat split; try done; try (by intros rows ->); by eexists.
Qed.

(** X19: schema set-up is idempotent.  On a store without faults
    [ensureSchema] resolves; afterwards both tables and the view exist,
    tables that were missing are empty and tables that existed hold
    their rows; running it again changes nothing; and a server that
    holds data keeps exactly that data. *)
Theorem ensureSchema_idempotent st :
  let st1 := snd (Schema.ensureSchema Schema.no_faults st) in
  fst (Schema.ensureSchema Schema.no_faults st) = Schema.resolved /\
  Schema.cat st1
  = {| Schema.live_table := Some (default [] (Schema.live_table (Schema.cat st)));
       Schema.history_table := Some (default [] (Schema.history_table (Schema.cat st)));
       Schema.latest_view := true |} /\
  Schema.in_use st1 = Schema.in_use st /\
  Schema.ensureSchema Schema.no_faults st1 = (Schema.resolved, st1) /\
  (forall d n,
     Schema.ensureSchema Schema.no_faults
       {| Schema.cat := Schema.holding d; Schema.in_use := n |}
     = (Schema.resolved, {| Schema.cat := Schema.holding d; Schema.in_use := n |})) /\
  Schema.cat (snd (Schema.ensureSchema Schema.no_faults
                     {| Schema.cat := Schema.empty_catalog; Schema.in_use := 0 |}))
  = Schema.holding empty_database.
Proof.
  destruct st as [[live hist view] n]. cbn. repeat split.
Qed.

(** ** The further properties at sample inputs *)

Lemma well_formed_report_accepted_witness :
  locationSchema_validate Sample.number_of_string Sample.isoDate
    TimestampExample.stamped = inr TimestampExample.stamped_value.
Proof.
  apply (well_formed_report_accepted Sample.number_of_string Sample.isoDate
           TimestampExample.stamped TimestampExample.stamped_value).
  - split; [exists (inject_Z 7); split; vm_compute; reflexivity|].
    split; [vm_compute; reflexivity|]. split; [vm_compute; reflexivity|].
    split; [vm_compute; reflexivity|]. split.
    + exists "2001-02-03T04:05:06Z".
      split; [vm_compute; reflexivity|]. split; [discriminate|].
      vm_compute. reflexivity.
    + apply unknown_keys_nil. vm_compute. reflexivity.
  - unfold in_schema_ranges, Joi.MAX_SAFE_INTEGER, Qle. cbn. lia.
Defined.

Lemma accepted_report_in_ranges_witness :
  in_schema_ranges RollbackExample.value /\
  (forall k, is_Some (RollbackExample.req_body !! k) -> Joi.is_schema_key k = true).
Proof.
  apply (accepted_report_in_ranges Sample.number_of_string Sample.isoDate
           RollbackExample.req_body RollbackExample.value).
  vm_compute. reflexivity.
Defined.

Lemma missing_field_rejected_witness :
  exists err,
    respond (post_location Sample.number_of_string Sample.isoDate Sample.quiet
               ExtraExample.no_latitude) RollbackExample.listening
    = (Some {| status := 400; body := invalid err |}, RollbackExample.listening).
Proof.
  apply (missing_field_rejected Sample.number_of_string Sample.isoDate Sample.quiet
           ExtraExample.no_latitude "latitude" RollbackExample.listening).
  - cbn. tauto.
  - apply lookup_delete_eq.
Defined.

Lemma bad_employee_id_rejected_witness :
  exists err,
    In err [Joi.number_unsafe "employee_id"; Joi.number_integer "employee_id";
            Joi.number_min "employee_id"] /\
    respond (post_location Sample.number_of_string Sample.isoDate Sample.quiet
               ExtraExample.fractional_id) RollbackExample.listening
    = (Some {| status := 400; body := invalid err |}, RollbackExample.listening).
Proof.
  apply (bad_employee_id_rejected Sample.number_of_string Sample.isoDate Sample.quiet
           ExtraExample.fractional_id (15 # 10) RollbackExample.listening).
  - apply lookup_insert_eq.
  - left. reflexivity.
Defined.

Lemma bad_gps_status_rejected_witness :
  exists err,
    respond (post_location Sample.number_of_string Sample.isoDate Sample.quiet
               ExtraExample.standby) RollbackExample.listening
    = (Some {| status := 400; body := invalid err |}, RollbackExample.listening).
Proof.
  apply (bad_gps_status_rejected Sample.number_of_string Sample.isoDate Sample.quiet
           ExtraExample.standby (JStr "standby") RollbackExample.listening).
  - apply lookup_insert_eq.
  - discriminate.
  - discriminate.
Defined.

Lemma healthy_store_outcome_witness :
  let value := RollbackExample.value in
  let w := RollbackExample.listening in
  let lat := SQL.round_scaled 6 (latitude value) in
  let lon := SQL.round_scaled 6 (longitude value) in
  respond (post_location Sample.number_of_string Sample.isoDate Sample.quiet
             RollbackExample.req_body) w =
    if employee_id value <=? 2147483647 then
      (Some {| status := 200; body := updated (payload_of Sample.quiet value) |},
       {| committed :=
            {| employee_live_location :=
                 SQL.upsert (live_row_of Sample.quiet value lat lon)
                   (employee_live_location (committed w));
               employee_location_history :=
                 employee_location_history (committed w)
                 ++ [history_row_of Sample.quiet value lat lon] |};
          pending := None;
          wss_clients := wss_clients w;
          sent := sent w ++ delivered Sample.quiet (location (payload_of Sample.quiet value))
                              (wss_clients w) |})
    else
      (Some {| status := 500; body := failure "Database error" |}, closed w).
Proof.
  apply (healthy_store_outcome Sample.number_of_string Sample.isoDate Sample.quiet
           RollbackExample.req_body RollbackExample.value RollbackExample.listening).
  - vm_compute. reflexivity.
  - intros call. reflexivity.
Defined.

Lemma only_success_writes_witness :
  let outcome :=
    respond (post_location Sample.number_of_string Sample.isoDate
               RollbackExample.history_insert_fails RollbackExample.req_body)
            RollbackExample.listening in
  committed (snd outcome) = committed RollbackExample.listening /\
  sent (snd outcome) = sent RollbackExample.listening /\
  wss_clients (snd outcome) = wss_clients RollbackExample.listening.
Proof.
  apply (only_success_writes Sample.number_of_string Sample.isoDate
           RollbackExample.history_insert_fails RollbackExample.req_body
           RollbackExample.listening).
  vm_compute. discriminate.
Defined.

Lemma stored_values_stay_in_range_witness :
  stored_in_range (committed UpsertExample.after_first_report).
Proof.
  apply (stored_values_stay_in_range UpsertExample.after_first_report).
  exact after_first_report_reachable.
Defined.

Lemma current_and_history_agree_witness :
  tables_agree (committed UpsertExample.after_first_report).
Proof.
  apply (current_and_history_agree UpsertExample.after_first_report).
  exact after_first_report_reachable.
Defined.

Lemma history_only_grows_witness :
  employee_location_history (committed initial_world)
    `prefix_of` employee_location_history (committed UpsertExample.after_first_report) /\
  live_keys (committed initial_world)
    `prefix_of` live_keys (committed UpsertExample.after_first_report).
Proof.
  apply (history_only_grows initial_world UpsertExample.after_first_report).
  apply rtc_once.
  exact (step_post Sample.number_of_string Sample.isoDate Sample.quiet
           RollbackExample.req_body initial_world).
Defined.

Lemma accepted_report_touches_one_worker_witness :
  exists value,
    locationSchema_validate Sample.number_of_string Sample.isoDate
      RollbackExample.req_body = inr value /\
    current_of (committed UpsertExample.after_first_report) (employee_id value)
    = Some (live_row_of Sample.quiet value (SQL.round_scaled 6 (latitude value))
              (SQL.round_scaled 6 (longitude value))) /\
    records_of (committed UpsertExample.after_first_report) (employee_id value)
    = records_of (committed initial_world) (employee_id value)
      ++ [history_row_of Sample.quiet value (SQL.round_scaled 6 (latitude value))
            (SQL.round_scaled 6 (longitude value))] /\
    forall other,
      other <> employee_id value ->
      current_of (committed UpsertExample.after_first_report) other
      = current_of (committed initial_world) other /\
      records_of (committed UpsertExample.after_first_report) other
      = records_of (committed initial_world) other.
Proof.
  apply (accepted_report_touches_one_worker Sample.number_of_string Sample.isoDate
           Sample.quiet RollbackExample.req_body
           (updated (payload_of Sample.quiet RollbackExample.value))
           initial_world UpsertExample.after_first_report).
  vm_compute. reflexivity.
Defined.

Lemma history_by_decimal_id_witness :
  respond (get_history SQL.scan_backward Sample.quiet (decimal 7) (JS.Str (decimal 10)))
    ReadBackExample.after_off
  = (Some {| status := 200;
             body := history_rows
                       (SQL.scan_backward (committed ReadBackExample.after_off)
                          (inject_Z 7) (Z.to_nat (Z.min 10 5000))) |},
     ReadBackExample.after_off) /\
  respond (get_history SQL.scan_backward Sample.quiet (decimal 7) JS.Undefined)
    ReadBackExample.after_off
  = (Some {| status := 200;
             body := history_rows
                       (SQL.scan_backward (committed ReadBackExample.after_off)
                          (inject_Z 7) 500%nat) |},
     ReadBackExample.after_off).
Proof.
  apply (history_by_decimal_id SQL.scan_backward Sample.quiet 7 10
           ReadBackExample.after_off).
  - reflexivity.
  - reflexivity.
  - reflexivity.
Defined.

Lemma late_observer_sees_no_replay_witness :
  exists obj2,
    updated (payload_of Sample.quiet
               {| employee_id := 7; latitude := 129716 # 10000;
                  longitude := 775946 # 10000; gps_status := Off;
                  timestamp := None |})
    = updated obj2 /\
    frames_to 1%nat (sent ExtraExample.after_joined_off)
    = [hello (Date_now Sample.quiet); location obj2].
Proof.
  apply (late_observer_sees_no_replay Sample.number_of_string Sample.isoDate
           Sample.quiet Sample.quiet Sample.quiet
           ReadBackExample.on_report ReadBackExample.off_report 1%nat
           initial_world ReadBackExample.after_on ExtraExample.joined
           ExtraExample.after_joined_off
           (updated (payload_of Sample.quiet RollbackExample.value))).
  - intros [].
  - reflexivity.
  - vm_compute. reflexivity.
  - vm_compute. reflexivity.
  - vm_compute. reflexivity.
  - reflexivity.
Defined.

Lemma frames_follow_acceptance_order_witness :
  exists obj1 obj2,
    updated (payload_of Sample.quiet RollbackExample.value) = updated obj1 /\
    updated (payload_of Sample.quiet
               {| employee_id := 7; latitude := 129716 # 10000;
                  longitude := 775946 # 10000; gps_status := Off;
                  timestamp := None |})
    = updated obj2 /\
    frames_to 2%nat (sent ExtraExample.both_after_off)
    = frames_to 2%nat (sent BroadcastExample.both) ++ [location obj1; location obj2].
Proof.
  apply (frames_follow_acceptance_order Sample.number_of_string Sample.isoDate
           Sample.quiet Sample.quiet
           ReadBackExample.on_report ReadBackExample.off_report 2%nat
           BroadcastExample.both ExtraExample.both_after_on
           ExtraExample.both_after_off).
  - cbn. apply NoDup_cons. split; [|apply NoDup_singleton].
    rewrite list_elem_of_In. intros [H|[]]. discriminate H.
  - cbn. tauto.
  - reflexivity.
  - reflexivity.
  - vm_compute. reflexivity.
  - vm_compute. reflexivity.
Defined.
